(** * lora-farm-radio: serial-to-database uploader and BLE relay switcher

    A shallow embedding of [log_to_aws.py] (frame codec, parser,
    translator, delivery queue, batch uploader, serial ingest, start-up
    and relay switch loop) and of the frame and password code of
    [dsdtech_switch_test.py], together with the properties stated about
    it.  The first part holds the definitions, the second the proofs.

    Conventions of the embedding:
    - a Python [int] is a [Z]; a [bytes]/[bytearray] value is a [list Z]
      whose elements lie in [0, 256);
    - a Python [str] is the list of its Unicode code points ([list N]);
    - a Python [float] is an IEEE-754 value ([spec_float]);
    - a Python [dict] with string keys is a [gmap (list N) _];
    - a call that may raise returns an [option] (one kind of error) or a
      [result] (the exception is part of the outcome);
    - the clock, the environment defaults and the standard-library JSON
      decoder are parameters of the functions that use them. *)

From Stdlib Require Import ZArith NArith List Bool Lia String Ascii DecimalString.
From Stdlib Require Import Floats.SpecFloat.
From stdpp Require Import base option list gmap.

Set Warnings "-register-all".
Local Open Scope Z_scope.

(* ================================================================== *)
(** * Frame codec *)
(* ================================================================== *)

Module Frame.

(** Membership in [range(256)]. *)
Definition is_byte (b : Z) : bool := (0 <=? b) && (b <? 256).

(** [bytearray(ints)], [bytes(ints)] and [bytearray.extend(ints)] raise
    [ValueError] as soon as one integer is outside [range(256)]. *)
Definition byte_seq (l : list Z) : option (list Z) :=
  if forallb is_byte l then Some l else None.

(** The accumulator loop [x = 0; for b in pkt: x ^= b]. *)
Definition xor_loop (pkt : list Z) : Z :=
  fold_left (fun x b => Z.lxor x b) pkt 0.

(** [_frame(password, opcode, content)] of log_to_aws.py. *)
Definition _frame (password opcode : Z) (content : list Z) : option (list Z) :=
  match byte_seq [0xA1; Z.land (Z.shiftr password 8) 0xFF;
                  Z.land password 0xFF; opcode] with
  | None => None
  | Some hdr =>
      let pkt := hdr ++ content in
      let x := xor_loop pkt in
      match byte_seq [x; 0xAA] with
      | None => None
      | Some tl => Some (pkt ++ tl)
      end
  end.

Definition _on_now (password channel : Z) : option (list Z) :=
  match byte_seq [channel] with
  | None => None
  | Some ch => _frame password 0x01 ch
  end.

Definition _off_now (password channel : Z) : option (list Z) :=
  match byte_seq [channel] with
  | None => None
  | Some ch => _frame password 0x02 ch
  end.

(** [build_frame(opcode, content)] of dsdtech_switch_test.py; [PWD] is
    the module-level password read once from the environment. *)
Definition build_frame (PWD opcode : Z) (content : list Z) : option (list Z) :=
  match byte_seq [0xA1; Z.land (Z.shiftr PWD 8) 0xFF;
                  Z.land PWD 0xFF; opcode] with
  | None => None
  | Some header =>
      match byte_seq content with
      | None => None
      | Some body =>
          let payload := header ++ body in
          let xor_acc := xor_loop payload in
          match byte_seq [xor_acc; 0xAA] with
          | None => None
          | Some tl => Some (payload ++ tl)
          end
      end
  end.

(** XOR of a byte sequence, as a right fold (the reference the
    accumulator loop is compared with). *)
Definition xor_bytes (l : list Z) : Z := foldr Z.lxor 0 l.

(** The wire layout [[0xA1][pwd_hi][pwd_lo][opcode][content...]]. *)
Definition header_of (password opcode : Z) : list Z :=
  [0xA1; Z.land (Z.shiftr password 8) 0xFF; Z.land password 0xFF; opcode].

(** The checksum relation on a received frame: the byte before the
    terminator equals the XOR of every byte in front of it. *)
Definition checksum_ok (f : list Z) : bool :=
  match rev f with
  | _term :: c :: rbody => c =? xor_bytes (rev rbody)
  | _ => false
  end.

(** The checksum byte of a frame (second to last position). *)
Definition checksum_byte (f : list Z) : option Z :=
  f !! (length f - 2)%nat.

(** Replacing the byte at position [i] by any other byte makes the
    checksum relation fail. *)
Definition change_detected_at (f : list Z) (i : nat) : Prop :=
  forall b, 0 <= b < 256 -> f !! i <> Some b ->
            checksum_ok (<[i:=b]> f) = false.

End Frame.

(* ================================================================== *)
(** * Python values *)
(* ================================================================== *)

(** Exceptions that matter to the control flow of the embedded code. *)
Inductive exn : Type :=
| JSONDecodeError
| UnicodeEncodeError
| IndexError
| OtherException (name : string).

(** Outcome of a call that may raise. *)
Inductive result (A : Type) : Type :=
| Ok (a : A)
| Raise (e : exn).
Arguments Ok {A} a.
Arguments Raise {A} e.

(** The values [json.loads] can produce. *)
Inductive pyvalue : Type :=
| PyNone
| PyBool (b : bool)
| PyInt (n : Z)
| PyFloat (f : spec_float)
| PyStr (s : list N)
| PyList (l : list pyvalue)
| PyDict (d : gmap (list N) pyvalue).

(** [d.get(k)]: the value stored under [k], [None] when the key is absent. *)
Definition dict_get (d : gmap (list N) pyvalue) (k : list N) : pyvalue :=
  default PyNone (d !! k).

(** [l[i]] raises [IndexError] out of range. *)
Definition getitem {A} (l : list A) (i : nat) : result A :=
  match l !! i with
  | Some x => Ok x
  | None => Raise IndexError
  end.

Module PyStr.

(** A literal made of ASCII characters, as code points. *)
Definition py (s : string) : list N :=
  List.map N_of_ascii (list_ascii_of_string s).

(** The double-quote character, U+0022. *)
Definition dq : list N := [34%N].

(** [s] between double quotes. *)
Definition quoted (s : string) : list N := dq ++ py s ++ dq.

(** [str.isspace] on one code point: the Unicode white-space set that
    [str.strip()] removes. *)
Definition py_isspace (c : N) : bool :=
  ((0x09 <=? c) && (c <=? 0x0D) || (0x1C <=? c) && (c <=? 0x20)
   || (c =? 0x85) || (c =? 0xA0) || (c =? 0x1680)
   || (0x2000 <=? c) && (c <=? 0x200A)
   || (c =? 0x2028) || (c =? 0x2029) || (c =? 0x202F)
   || (c =? 0x205F) || (c =? 0x3000))%N.

(** A run of white space. *)
Definition spaces (ws : list N) : Prop :=
  Forall (fun c => py_isspace c = true) ws.

Fixpoint lstrip (s : list N) : list N :=
  match s with
  | [] => []
  | c :: t => if py_isspace c then lstrip t else s
  end.

Definition rstrip (s : list N) : list N := rev (lstrip (rev s)).

(** [s.strip()] *)
Definition strip (s : list N) : list N := rstrip (lstrip s).

(** [text.startswith(prefix)] *)
Fixpoint startswith (text prefix : list N) {struct prefix} : bool :=
  match prefix, text with
  | [], _ => true
  | _ :: _, [] => false
  | p :: ps, c :: cs => (c =? p)%N && startswith cs ps
  end.

(** [text.endswith(suffix)] *)
Definition endswith (text suffix : list N) : bool :=
  startswith (rev text) (rev suffix).

(** [needle in text] *)
Fixpoint contains (text needle : list N) : bool :=
  startswith text needle ||
  match text with
  | [] => false
  | _ :: t => contains t needle
  end.

(** Cut [text] at the first occurrence of the character [sep]: the part
    in front of it and, when [sep] occurs, the part behind it. *)
Fixpoint cut (sep : N) (text : list N) : list N * option (list N) :=
  match text with
  | [] => ([], None)
  | c :: t =>
      if (c =? sep)%N then ([], Some t)
      else let '(h, r) := cut sep t in (c :: h, r)
  end.

(** [text.split(sep, 1)] for a one-character separator. *)
Definition split1 (sep : N) (text : list N) : list (list N) :=
  let '(h, r) := cut sep text in
  match r with
  | None => [h]
  | Some t => [h; t]
  end.

(** ** [str.encode("utf-8")] *)

(** One code point; lone surrogates and values beyond U+10FFFF have no
    encoding ([UnicodeEncodeError]). *)
Definition utf8_encode_char (c : N) : option (list Z) :=
  let z := Z.of_N c in
  if z <? 0x80 then Some [z]
  else if z <? 0x800 then
    Some [Z.lor 0xC0 (Z.shiftr z 6); Z.lor 0x80 (Z.land z 0x3F)]
  else if z <? 0x10000 then
    if (0xD800 <=? z) && (z <=? 0xDFFF) then None
    else Some [Z.lor 0xE0 (Z.shiftr z 12);
               Z.lor 0x80 (Z.land (Z.shiftr z 6) 0x3F);
               Z.lor 0x80 (Z.land z 0x3F)]
  else if z <? 0x110000 then
    Some [Z.lor 0xF0 (Z.shiftr z 18);
          Z.lor 0x80 (Z.land (Z.shiftr z 12) 0x3F);
          Z.lor 0x80 (Z.land (Z.shiftr z 6) 0x3F);
          Z.lor 0x80 (Z.land z 0x3F)]
  else None.

Fixpoint utf8_encode (s : list N) : option (list Z) :=
  match s with
  | [] => Some []
  | c :: t =>
      match utf8_encode_char c, utf8_encode t with
      | Some a, Some b => Some (a ++ b)
      | _, _ => None
      end
  end.

End PyStr.

(** [binascii.crc32]: the reflected CRC-32 with polynomial 0xEDB88320,
    initial value and final XOR 0xFFFFFFFF, computed bit by bit. *)
Module Crc.

Definition step_bit (c : Z) : Z :=
  if Z.testbit c 0 then Z.lxor (Z.shiftr c 1) 0xEDB88320 else Z.shiftr c 1.

Definition step_byte (c b : Z) : Z :=
  Nat.iter 8 step_bit (Z.lxor c b).

Definition crc32 (data : list Z) : Z :=
  Z.lxor (fold_left step_byte data 0xFFFFFFFF) 0xFFFFFFFF.

End Crc.

(* ================================================================== *)
(** * Packet parser *)
(* ================================================================== *)

Module Parser.
Import PyStr.

(** [_extract_json_text(line)] *)
Definition _extract_json_text (line : list N) : option (list N) :=
  let text := strip line in
  if bool_decide (text = []) || startswith text (py "#") then None
  else if startswith text (py "{") && endswith text (py "}") then Some text
  else if contains text (py "|") then
    (* try: ... except Exception: return None *)
    match getitem (split1 124%N text) 1 with
    | Ok raw =>
        let part := strip raw in
        if startswith part (py "{") && endswith part (py "}")
        then Some part else None
    | Raise _ => None
    end
  else None.

Section WithDecoder.

(** [json.loads] belongs to the Python standard library; it is a
    parameter of the parser. *)
Variable json_loads : list N -> result pyvalue.

(** [parse_line_to_packet(line)]: only [json.JSONDecodeError] is caught. *)
Definition parse_line_to_packet (line : list N)
  : result (option (gmap (list N) pyvalue)) :=
  match _extract_json_text line with
  | None => Ok None
  | Some [] => Ok None
  | Some json_text =>
      match json_loads json_text with
      | Raise JSONDecodeError => Ok None
      | Raise e => Raise e
      | Ok (PyDict obj) => Ok (Some obj)
      | Ok _ => Ok None
      end
  end.

(** ** The parsing rules as the specification words them *)

Definition looks_like_object (t : list N) : bool :=
  startswith t (py "{") && endswith t (py "}").

(** The object a text decodes to, if it decodes and to an object. *)
Definition decodes_to_object (t : list N) : option (gmap (list N) pyvalue) :=
  match json_loads t with
  | Ok (PyDict obj) => Some obj
  | _ => None
  end.

(** The substring after the first ['|'] of a line. *)
Definition after_first_pipe (line : list N) : option (list N) :=
  snd (cut 124%N line).

Definition parse_rules (line : list N) : option (gmap (list N) pyvalue) :=
  let trimmed := strip line in
  match trimmed with
  | [] => None                                   (* blank line *)
  | c :: _ =>
      if (c =? 35)%N then None                   (* first character is # *)
      else if looks_like_object trimmed then decodes_to_object trimmed
      else match after_first_pipe line with
           | Some rest =>
               if looks_like_object (strip rest)
               then decodes_to_object (strip rest) else None
           | None => None
           end
  end.

End WithDecoder.

(** ** Sample lines *)

Definition line_name_battery : list N :=
  py "{" ++ quoted "name" ++ py ":" ++ quoted "a" ++ py ","
     ++ quoted "battery_v" ++ py ":3.7}".

Definition line_debug : list N := py "# debug".

Definition text_name_only : list N :=
  py "{" ++ quoted "name" ++ py ":" ++ quoted "a" ++ py "}".

Definition line_legacy : list N := py "ok seq=1 | " ++ text_name_only.

Definition line_broken : list N := py "{" ++ quoted "broken".

(** The binary64 value nearest to 3.7. *)
Definition float_3_7 : spec_float := S754_finite false 8331659310635418 (-51).

Definition pkt_name_battery : gmap (list N) pyvalue :=
  <[py "battery_v" := PyFloat float_3_7]> (<[py "name" := PyStr (py "a")]> ∅).

Definition pkt_name_only : gmap (list N) pyvalue :=
  <[py "name" := PyStr (py "a")]> ∅.

(** A decoder that knows the two sample documents and rejects every
    other text with [JSONDecodeError]. *)
Definition sample_json_loads (t : list N) : result pyvalue :=
  if bool_decide (t = line_name_battery) then Ok (PyDict pkt_name_battery)
  else if bool_decide (t = text_name_only) then Ok (PyDict pkt_name_only)
  else Raise JSONDecodeError.

End Parser.

(* ================================================================== *)
(** * Identity and translation *)
(* ================================================================== *)

Module Translator.
Import PyStr.

(** [stable_hardware_id(name_or_txid)] *)
Definition stable_hardware_id (name_or_txid : list N) : result Z :=
  match utf8_encode name_or_txid with
  | None => Raise UnicodeEncodeError
  | Some data =>
      let crc32 := Z.land (Crc.crc32 data) 0xFFFFFFFF in
      Ok (1000 + Z.land crc32 0x7FFFFFFF)
  end.

(** The [sensor] dictionary built by [translate_packet]. *)
Record sensor : Type := {
  hardware_id : Z;
  name : list N;
  sensor_type : pyvalue;
  gps_latitude : pyvalue;
  gps_longitude : pyvalue;
  metadata : gmap (list N) pyvalue
}.

(** The [reading] dictionary built by [translate_packet]. *)
Record reading : Type := {
  sensor_id : Z;
  ts : Z;
  sequence : pyvalue;
  temperature_c : pyvalue;
  humidity_pct : pyvalue;
  capacitance_val : pyvalue;
  battery_v : pyvalue;
  rssi_dbm : pyvalue
}.

(** [isinstance(v, str)] *)
Definition is_str (v : pyvalue) : bool :=
  match v with PyStr _ => true | _ => false end.

(** [isinstance(v, (int, float))]; [bool] is a subclass of [int]. *)
Definition is_int_or_float (v : pyvalue) : bool :=
  match v with
  | PyInt _ | PyFloat _ | PyBool _ => true
  | _ => false
  end.

(** A module-level default coordinate: a float or [None]. *)
Definition default_coord (d : option spec_float) : pyvalue :=
  match d with
  | Some f => PyFloat f
  | None => PyNone
  end.

Section WithEnvironment.

(** [DEFAULT_LAT] and [DEFAULT_LON], read once from the environment. *)
Variables DEFAULT_LAT DEFAULT_LON : option spec_float.

(** How an f-string renders a value; Python's own formatting. *)
Variable py_format : pyvalue -> list N.

(** [translate_packet(pkt)]; [now_utc] is the clock reading
    [datetime.now(timezone.utc)] taken by the call. *)
Definition translate_packet (now_utc : Z) (pkt : gmap (list N) pyvalue)
  : result (sensor * reading) :=
  let name := dict_get pkt (py "name") in
  let sensor_id_fallback := dict_get pkt (py "sensor_id") in
  let name :=
    match name with
    | PyStr ((_ :: _) as s) => s
    | _ =>
        py "tx-" ++
        match sensor_id_fallback with
        | PyNone => py "unknown"
        | v => py_format v
        end
    end in
  match stable_hardware_id name with
  | Raise e => Raise e
  | Ok hardware_id =>
      let gps_lat := dict_get pkt (py "gps_lat") in
      let gps_long := dict_get pkt (py "gps_long") in
      let lat := if is_int_or_float gps_lat then gps_lat
                 else default_coord DEFAULT_LAT in
      let lon := if is_int_or_float gps_long then gps_long
                 else default_coord DEFAULT_LON in
      let sensor_type_val :=
        if is_str (dict_get pkt (py "sensor_type"))
        then dict_get pkt (py "sensor_type") else PyNone in
      let sensor :=
        {| hardware_id := hardware_id;
           name := name;
           sensor_type := sensor_type_val;
           gps_latitude := lat;
           gps_longitude := lon;
           metadata :=
             <[py "net" := dict_get pkt (py "net")]>
               (<[py "source" := PyStr (py "radio")]> ∅) |} in
      let reading :=
        {| sensor_id := hardware_id;
           ts := now_utc;
           sequence := dict_get pkt (py "sequence");
           temperature_c := dict_get pkt (py "temperature_c");
           humidity_pct := dict_get pkt (py "humidity_pct");
           capacitance_val := dict_get pkt (py "capacitance_val");
           battery_v := dict_get pkt (py "battery_v");
           rssi_dbm := dict_get pkt (py "rssi_dbm") |} in
      Ok (sensor, reading)
  end.

(** The name a packet is filed under: its own non-empty [name], else
    one made from its [sensor_id]. *)
Definition resolved_name (pkt : gmap (list N) pyvalue) : list N :=
  let name := dict_get pkt (py "name") in
  let sensor_id_fallback := dict_get pkt (py "sensor_id") in
  match name with
  | PyStr ((_ :: _) as s) => s
  | _ =>
      py "tx-" ++
      match sensor_id_fallback with
      | PyNone => py "unknown"
      | v => py_format v
      end
  end.

(** ** The coordinate rule as the specification words it *)

(** Both packet coordinates are used, or both defaults are. *)
Definition coords_all_or_nothing (pkt : gmap (list N) pyvalue) (s : sensor)
  : Prop :=
  let gps_lat := dict_get pkt (py "gps_lat") in
  let gps_long := dict_get pkt (py "gps_long") in
  if is_int_or_float gps_lat && is_int_or_float gps_long
  then gps_latitude s = gps_lat /\ gps_longitude s = gps_long
  else gps_latitude s = default_coord DEFAULT_LAT /\
       gps_longitude s = default_coord DEFAULT_LON.

End WithEnvironment.

(** ** Sample inputs *)

(** 10.0 and 20.0 as binary64 values. *)
Definition float_10 : spec_float := S754_finite false 5629499534213120 (-49).
Definition float_20 : spec_float := S754_finite false 5629499534213120 (-48).

(** A packet that carries a latitude and no longitude. *)
Definition pkt_lat_only : gmap (list N) pyvalue :=
  <[py "gps_lat" := PyInt 45]> (<[py "name" := PyStr (py "a")]> ∅).

(** A packet that carries nothing but a name. *)
Definition pkt_named_a : gmap (list N) pyvalue :=
  <[py "name" := PyStr (py "a")]> ∅.

(** A rendering that is never consulted for packets with a name. *)
Definition no_format (v : pyvalue) : list N := [].

End Translator.

(* ================================================================== *)
(** * Delivery queue and the flush step of the main loop *)
(* ================================================================== *)

Module Queue.

Section Items.
Context {A : Type}.

(** The state of an [InMemoryQueue]: the contents of its deque, oldest
    item first.  Every method body runs under the queue's lock, so a
    method is one atomic step on this state. *)
Definition InMemoryQueue := list A.

(** [q.enqueue(item)]: [self._q.append(item)] *)
Definition enqueue (q : InMemoryQueue) (item : A) : InMemoryQueue :=
  q ++ [item].

(** The loop [while self._q and len(out) < max_items:
    out.append(self._q.popleft())], started with the deque [q] and the
    output list [out]. *)
Fixpoint dequeue_loop (max_items : Z) (q : InMemoryQueue) (out : list A)
  : list A * InMemoryQueue :=
  match q with
  | [] => (out, q)
  | item :: q' =>
      if Z.of_nat (length out) <? max_items
      then dequeue_loop max_items q' (out ++ [item])
      else (out, q)
  end.

(** [q.dequeue_batch(max_items)]: the batch and the queue afterwards. *)
Definition dequeue_batch (q : InMemoryQueue) (max_items : Z)
  : list A * InMemoryQueue :=
  dequeue_loop max_items q [].

(** [len(q)] *)
Definition len (q : InMemoryQueue) : Z := Z.of_nat (length q).

(** The handler of a failed flush:
    [for it in reversed(items): q.enqueue(it)]. *)
Definition requeue (q : InMemoryQueue) (items : list A) : InMemoryQueue :=
  fold_left enqueue (rev items) q.

(** One connected tick of [main]: dequeue a batch, try to flush it, and
    requeue it when the flush raises.  [flush_queue] is the database
    transaction; [arrivals] are the items the serial reader enqueues
    while the flush attempt is running. *)
Definition flush_tick (flush_queue : list A -> result Z)
    (batch_size : Z) (arrivals : list A) (q : InMemoryQueue)
  : InMemoryQueue :=
  let '(items, q) := dequeue_batch q batch_size in
  match items with
  | [] => q
  | _ :: _ =>
      let q := fold_left enqueue arrivals q in
      match flush_queue items with
      | Ok _ => q
      | Raise _ => requeue q items
      end
  end.

End Items.

End Queue.

(* ================================================================== *)
(** * Relay duty-cycle controller start-up *)
(* ================================================================== *)

Module Relay.

(** A started [threading.Thread] running [_bt_switch_loop]. *)
Record thread : Type := {
  thread_name : string;
  daemon : bool;
  uptime_m : spec_float;
  downtime_m : spec_float;
  mac : list N;
  password : Z
}.

(** The threads of the process that have been started. *)
Definition threads := list thread.

(** The integer [0] a float is compared with. *)
Definition zero : spec_float := S754_zero false.

(** Truth value of an [Optional[str]]: [None] and the empty string are
    false. *)
Definition truthy (mac : option (list N)) : bool :=
  match mac with
  | Some (_ :: _) => true
  | _ => false
  end.

(** [start_bt_switcher(starlink_uptime_mins, starlink_downtime_mins, mac,
    password, stop_event)]: the returned thread, if any, and the started
    threads afterwards. *)
Definition start_bt_switcher (starlink_uptime_mins starlink_downtime_mins
    : spec_float) (mac : option (list N)) (password : Z) (running : threads)
  : option thread * threads :=
  if SFleb starlink_uptime_mins zero || SFleb starlink_downtime_mins zero
     || negb (truthy mac)
  then (None, running)
  else
    let t := {| thread_name := "starlink-ble";
                daemon := true;
                uptime_m := starlink_uptime_mins;
                downtime_m := starlink_downtime_mins;
                mac := default [] mac;
                password := password |} in
    (Some t, running ++ [t]).

(** A float that is a number. *)
Definition is_number (f : spec_float) : bool :=
  match f with
  | S754_nan => false
  | _ => true
  end.

End Relay.

(* ================================================================== *)
(** * Relay password *)
(* ================================================================== *)

Module Password.
Import PyStr.

Section WithBuiltins.

(** [int(s, base)] and [str.lower] are Python built-ins; [int] answers
    [None] where Python raises [ValueError]. *)
Variable py_int : list N -> Z -> option Z.
Variable py_lower : list N -> list N.

(** [_parse_pwd(env_val)] of log_to_aws.py. *)
Definition _parse_pwd (env_val : option (list N)) : Z :=
  match env_val with
  | None | Some [] => 0x04D2
  | Some s =>
      (* try: ... except Exception: return 0x04D2 *)
      match (if startswith (py_lower s) (py "0x")
             then option_map (fun n => Z.land n 0xFFFF) (py_int s 16)
             else option_map (fun n => Z.land n 0xFFFF) (py_int s 10)) with
      | Some pwd => pwd
      | None => 0x04D2
      end
  end.

(** [_parse_pwd(env_val)] of dsdtech_switch_test.py. *)
Definition _parse_pwd_test (env_val : option (list N)) : Z :=
  match env_val with
  | None | Some [] => 0x04D2
  | Some s =>
      if startswith (py_lower s) (py "0x") then
        match py_int s 16 with
        | Some n => Z.land n 0xFFFF
        | None => 0x04D2
        end
      else
        match py_int s 10 with
        | Some n => Z.land n 0xFFFF
        | None => 0x04D2
        end
  end.

End WithBuiltins.

(** [on_now_frame()] and [off_now_frame()] of dsdtech_switch_test.py;
    [CHANNEL] is the constant 1. *)
Definition CHANNEL : Z := 0x01.

Definition on_now_frame (PWD : Z) : option (list Z) :=
  match Frame.byte_seq [CHANNEL] with
  | None => None
  | Some ch => Frame.build_frame PWD 0x01 ch
  end.

Definition off_now_frame (PWD : Z) : option (list Z) :=
  match Frame.byte_seq [CHANNEL] with
  | None => None
  | Some ch => Frame.build_frame PWD 0x02 ch
  end.

End Password.

(* ================================================================== *)
(** * Predicates used to state properties *)
(* ================================================================== *)

Module Shape.
Import PyStr Translator.

(** A Unicode scalar value: a code point up to U+10FFFF that is not a
    surrogate. *)
Definition is_scalar_value (c : N) : bool :=
  ((c <? 0xD800) || (0xDFFF <? c) && (c <? 0x110000))%N.

(** [t] occurs in [s] as a contiguous slice. *)
Definition slice_of (t s : list N) : Prop :=
  exists before after, s = before ++ t ++ after.

(** What [translate_packet] guarantees about a queue item: the reading
    points at its sensor and the identity lies in the documented range. *)
Definition item_ok (item : sensor * reading) : Prop :=
  sensor_id (snd item) = hardware_id (fst item) /\
  1000 <= hardware_id (fst item) <= 1000 + 2 ^ 31 - 1.

End Shape.

(* ================================================================== *)
(** * Batch uploader *)
(* ================================================================== *)

Module Uploader.
Import PyStr Translator.

(** [str(n)] for an integer, as an f-string renders it. *)
Definition py_str_int (n : Z) : list N :=
  py (NilZero.string_of_int (Z.to_int n)).

(** [_dsn_with_timeout(db_url, timeout_s)] *)
Definition _dsn_with_timeout (db_url : list N) (timeout_s : Z) : list N :=
  if contains db_url (py "?")
  then db_url ++ py "&connect_timeout=" ++ py_str_int timeout_s
  else db_url ++ py "?connect_timeout=" ++ py_str_int timeout_s.

(** A row of the [sensor] table and a row of the [reading] table, as
    the tuples handed to the driver. *)
Definition sensor_row : Type :=
  Z * list N * pyvalue * pyvalue * pyvalue * list N.

Definition reading_row : Type :=
  Z * Z * pyvalue * pyvalue * pyvalue * pyvalue * pyvalue * pyvalue.

Inductive rows : Type :=
| SensorRows (l : list sensor_row)
| ReadingRows (l : list reading_row).

(** The calls made on the database driver.  What the connection's
    context manager does by itself when its block is left is not
    listed. *)
Inductive db_call : Type :=
| Connect (dsn : list N)
| Execute (sql : string)
| ExecuteValues (sql : string) (args : rows)
| ExecuteMany (sql : string) (args : rows)
| Commit.

(** The calls that have completed, oldest first. *)
Definition trace := list db_call.

(** The database as the uploader meets it: given the calls completed so
    far, the next call returns or raises. *)
Definition database := trace -> db_call -> option exn.

(** Code that talks to the database: it returns or raises, and extends
    the trace by the calls that completed. *)
Definition DB (A : Type) : Type := trace -> result A * trace.

Definition ret {A} (a : A) : DB A := fun tr => (Ok a, tr).

Definition bind {A B} (m : DB A) (k : A -> DB B) : DB B :=
  fun tr =>
    match m tr with
    | (Ok a, tr') => k a tr'
    | (Raise e, tr') => (Raise e, tr')
    end.

Notation "m >>- k" := (bind m (fun _ => k))
  (at level 90, right associativity).

Definition call (server : database) (c : db_call) : DB unit :=
  fun tr =>
    match server tr c with
    | Some e => (Raise e, tr)
    | None => (Ok tt, tr ++ [c])
    end.

(** [dedup[k] = v] on a dictionary that keeps insertion order: an
    existing key keeps its place and takes the new value. *)
Fixpoint dict_set {V} (d : list (Z * V)) (k : Z) (v : V) : list (Z * V) :=
  match d with
  | [] => [(k, v)]
  | (k', v') :: d' =>
      if k' =? k then (k, v) :: d' else (k', v') :: dict_set d' k v
  end.

(** [dedup = {}; for s in sensors: dedup[s["hardware_id"]] = s] *)
Definition dedup_sensors (sensors : list sensor) : list (Z * sensor) :=
  fold_left (fun dedup s => dict_set dedup (hardware_id s) s) sensors [].

(** The statements of [ensure_sensors] and [insert_readings]; [values]
    is ["%s"] for [execute_values] and the tuple of placeholders for
    [executemany]. *)
Definition sensor_sql (values : string) : string :=
  ("insert into sensor (hardware_id, name, sensor_type, gps_latitude, gps_longitude, metadata) "
   ++ "values " ++ values ++ " "
   ++ "on conflict (hardware_id) do update set "
   ++ "  name=excluded.name, sensor_type=excluded.sensor_type, "
   ++ "  gps_latitude=excluded.gps_latitude, gps_longitude=excluded.gps_longitude, "
   ++ "  metadata=excluded.metadata")%string.

Definition reading_sql (values : string) : string :=
  ("insert into reading (sensor_id, ts, sequence, temperature_c, humidity_pct, capacitance_val, battery_v, rssi_dbm) "
   ++ "values " ++ values ++ " on conflict (sensor_id, ts) do nothing")%string.

Section WithLibraries.

(** [json.dumps], the optional [psycopg.extras.execute_values] (absent
    when its import failed) and [CONNECT_TIMEOUT_S]. *)
Variable json_dumps : pyvalue -> list N.
Variable execute_values : bool.
Variable CONNECT_TIMEOUT_S : Z.

(** The tuple built from one sensor dictionary;
    [s.get("metadata") or {}] replaces an empty mapping by [{}]. *)
Definition sensor_row_of (s : sensor) : sensor_row :=
  (hardware_id s, name s, sensor_type s, gps_latitude s, gps_longitude s,
   json_dumps (PyDict (if bool_decide (metadata s = ∅) then ∅
                       else metadata s))).

Definition reading_row_of (r : reading) : reading_row :=
  (sensor_id r, ts r, sequence r, temperature_c r, humidity_pct r,
   capacitance_val r, battery_v r, rssi_dbm r).

(** The rows of [ensure_sensors]: one per distinct [hardware_id], in
    the order of [dedup.values()]. *)
Definition sensor_rows (sensors : list sensor) : list sensor_row :=
  List.map (fun kv => sensor_row_of (snd kv)) (dedup_sensors sensors).

(** [ensure_sensors(conn, sensors)] *)
Definition ensure_sensors (server : database) (sensors : list sensor)
  : DB unit :=
  match sensors with
  | [] => ret tt
  | _ :: _ =>
      let rows := sensor_rows sensors in
      if execute_values
      then call server (ExecuteValues (sensor_sql "%s") (SensorRows rows))
      else call server (ExecuteMany (sensor_sql "(%s,%s,%s,%s,%s,%s)")
                                    (SensorRows rows))
  end.

(** [insert_readings(conn, readings)] *)
Definition insert_readings (server : database) (readings : list reading)
  : DB unit :=
  match readings with
  | [] => ret tt
  | _ :: _ =>
      let rows := List.map reading_row_of readings in
      if execute_values
      then call server (ExecuteValues (reading_sql "%s") (ReadingRows rows))
      else call server (ExecuteMany (reading_sql "(%s,%s,%s,%s,%s,%s,%s,%s)")
                                    (ReadingRows rows))
  end.

(** [flush_queue(db_url, items)], run on a fresh trace. *)
Definition flush_queue (server : database) (db_url : list N)
    (items : list (sensor * reading)) : result Z * trace :=
  match items with
  | [] => (Ok 0, [])
  | _ :: _ =>
      let sensors := List.map fst items in
      let readings := List.map snd items in
      let dsn := _dsn_with_timeout db_url CONNECT_TIMEOUT_S in
      (call server (Connect dsn) >>-
       call server (Execute "set timezone to 'UTC'") >>-
       ensure_sensors server sensors >>-
       insert_readings server readings >>-
       call server Commit >>-
       ret (Z.of_nat (length items))) []
  end.

(** The calls of a flush that runs to its end. *)
Definition full_trace (db_url : list N) (items : list (sensor * reading))
  : trace :=
  [Connect (_dsn_with_timeout db_url CONNECT_TIMEOUT_S);
   Execute "set timezone to 'UTC'";
   (if execute_values
    then ExecuteValues (sensor_sql "%s")
           (SensorRows (sensor_rows (List.map fst items)))
    else ExecuteMany (sensor_sql "(%s,%s,%s,%s,%s,%s)")
           (SensorRows (sensor_rows (List.map fst items))));
   (if execute_values
    then ExecuteValues (reading_sql "%s")
           (ReadingRows (List.map reading_row_of (List.map snd items)))
    else ExecuteMany (reading_sql "(%s,%s,%s,%s,%s,%s,%s,%s)")
           (ReadingRows (List.map reading_row_of (List.map snd items))));
   Commit].

End WithLibraries.

(** The [hardware_id] column of a sensor row and the [sensor_id] column
    of a reading row. *)
Definition sensor_row_id (row : sensor_row) : Z :=
  let '(id, _, _, _, _, _) := row in id.

Definition reading_row_sensor (row : reading_row) : Z :=
  let '(id, _, _, _, _, _, _, _) := row in id.

(** A sensor and a reading that belong together. *)
Definition sample_sensor : sensor :=
  {| hardware_id := 1756873259; name := py "a"; sensor_type := PyNone;
     gps_latitude := PyNone; gps_longitude := PyNone; metadata := ∅ |}.

Definition sample_reading : reading :=
  {| sensor_id := 1756873259; ts := 0; sequence := PyInt 1;
     temperature_c := PyNone; humidity_pct := PyNone;
     capacitance_val := PyNone; battery_v := PyNone; rssi_dbm := PyNone |}.

(** A serializer that renders everything as the empty string. *)
Definition no_dumps (v : pyvalue) : list N := [].

(** The deduplication loop started from the dictionary [d]. *)
Definition dedup_from (d : list (Z * sensor)) (sensors : list sensor)
  : list (Z * sensor) :=
  fold_left (fun dedup s => dict_set dedup (hardware_id s) s) sensors d.

(** Number of occurrences of a character in a string. *)
Definition count_char (c : N) (s : list N) : nat :=
  length (filter (fun x => x = c) s).

(** A database that accepts every call, and one that rejects the
    commit. *)
Definition accepting : database := fun _ _ => None.

Definition rejecting_commit : database :=
  fun _ c =>
    match c with
    | Commit => Some (OtherException "OperationalError")
    | _ => None
    end.

End Uploader.

(* ================================================================== *)
(** * Serial ingest *)
(* ================================================================== *)

(** Python floats are binary64 values. *)
Module Float.

Definition b64_mul : spec_float -> spec_float -> spec_float := SFmul 53 1024.

(** [min(a, b)] and [max(a, b)] of two arguments: the second replaces
    the first only when it compares strictly smaller (greater). *)
Definition py_min (a b : spec_float) : spec_float :=
  if SFltb b a then b else a.

Definition py_max (a b : spec_float) : spec_float :=
  if SFltb a b then b else a.

Definition f0_1 : spec_float := S754_finite false 7205759403792794 (-56).
Definition f1 : spec_float := S754_finite false 4503599627370496 (-52).
Definition f2 : spec_float := S754_finite false 4503599627370496 (-51).
Definition f30 : spec_float := S754_finite false 8444249301319680 (-48).
Definition f60 : spec_float := S754_finite false 8444249301319680 (-47).

(** The float of a small natural power of two. *)
Definition pow2 (k : nat) : spec_float :=
  S754_finite false 4503599627370496 (Z.of_nat k - 52).

End Float.

Module Reader.
Import PyStr Parser Translator Float.

(** The delay after the next failed attempt to open the serial port:
    [backoff_s = min(backoff_s * 2.0, 30.0)]; it starts at [1.0]. *)
Definition next_backoff (backoff_s : spec_float) : spec_float :=
  py_min (b64_mul backoff_s f2) f30.

(** The delay slept after [k] failed attempts in a row. *)
Definition backoff_after (k : nat) : spec_float := Nat.iter k next_backoff f1.

Section WithEnvironment.

Variable json_loads : list N -> result pyvalue.
Variables DEFAULT_LAT DEFAULT_LON : option spec_float.
Variable py_format : pyvalue -> list N.

(** [on_packet(pkt)] of [main]: translate and enqueue (the log line
    that follows sits in a [try] that swallows every exception). *)
Definition on_packet (now_utc : Z) (pkt : gmap (list N) pyvalue)
    (q : list (sensor * reading)) : result (list (sensor * reading)) :=
  match translate_packet DEFAULT_LAT DEFAULT_LON py_format now_utc pkt with
  | Raise e => Raise e
  | Ok (sensor, reading) => Ok (Queue.enqueue q (sensor, reading))
  end.

(** The body of the read loop of [start_serial_reader] for one decoded
    line [raw]: the queue afterwards, or the exception that leaves the
    loop. *)
Definition handle_line (now_utc : Z) (raw : list N)
    (q : list (sensor * reading)) : result (list (sensor * reading)) :=
  match raw with
  | [] => Ok q                                  (* if not raw: continue *)
  | _ :: _ =>
      match parse_line_to_packet json_loads raw with
      | Raise e => Raise e
      | Ok None => Ok q                         (* if not pkt: continue *)
      | Ok (Some pkt) =>
          if bool_decide (pkt = ∅) then Ok q
          else
            (* try: on_packet(pkt) except Exception: log *)
            match on_packet now_utc pkt q with
            | Ok q' => Ok q'
            | Raise _ => Ok q
            end
      end
  end.

End WithEnvironment.

End Reader.

(* ================================================================== *)
(** * Relay duty cycle *)
(* ================================================================== *)

Module Switcher.
Import Float.

(** The phase lengths of [_bt_switch_loop]:
    [max(0.1, float(minutes) * 60.0)]. *)
Definition phase_seconds (minutes : spec_float) : spec_float :=
  py_max f0_1 (b64_mul minutes f60).

End Switcher.

(* ================================================================== *)
(** * Start-up: serial port, configuration, exit status *)
(* ================================================================== *)

Module Startup.
Import PyStr.

(** [a < b] on strings: lexicographic on code points. *)
Fixpoint str_lt (a b : list N) : bool :=
  match a, b with
  | _, [] => false
  | [], _ :: _ => true
  | x :: a', y :: b' => (x <? y)%N || (x =? y)%N && str_lt a' b'
  end.

(** [sorted(l)]: a stable insertion into an ordered list. *)
Fixpoint insert_sorted (x : list N) (l : list (list N)) : list (list N) :=
  match l with
  | [] => [x]
  | y :: l' => if str_lt x y then x :: l else y :: insert_sorted x l'
  end.

Definition sorted (l : list (list N)) : list (list N) :=
  fold_left (fun acc x => insert_sorted x acc) l [].

(** The patterns tried by [find_serial_port], in order. *)
Definition patterns : list (list N) :=
  [py "/dev/ttyACM*"; py "/dev/ttyUSB*"; py "/dev/serial/by-id/*"].

Section WithSystem.

(** The file system ([os.path.exists], [glob.glob]), the environment
    ([os.getenv]) and the built-ins [float], [int] and [str.lower];
    [float] and [int] answer [None] where Python raises [ValueError]. *)
Variable path_exists : list N -> bool.
Variable glob : list N -> list (list N).
Variable getenv : string -> option (list N).
Variable py_float : list N -> option spec_float.
Variable py_int : list N -> Z -> option Z.
Variable py_lower : list N -> list N.

(** The loop [for pat in patterns: ...] of [find_serial_port]. *)
Fixpoint first_match (pats : list (list N)) : result (list N) :=
  match pats with
  | [] => Raise (OtherException "FileNotFoundError")
  | pat :: pats' =>
      match sorted (glob pat) with
      | [] => first_match pats'
      | m :: _ => Ok m
      end
  end.

(** [find_serial_port(explicit_path)] *)
Definition find_serial_port (explicit_path : option (list N))
  : result (list N) :=
  match explicit_path with
  | Some ((_ :: _) as p) =>
      if path_exists p then Ok p else first_match patterns
  | _ => first_match patterns
  end.

(** The dictionary built by [load_config]; [baud], [batch_size] and
    [tick_seconds] are the module-level defaults. *)
Record config : Type := {
  db_url : list N;
  serial_port : option (list N);
  baud : Z;
  batch_size : Z;
  tick_seconds : spec_float;
  starlink_uptime_mins : spec_float;
  starlink_downtime_mins : spec_float;
  dsd_device_mac : option (list N);
  dsd_password : Z
}.

Variables (DEFAULT_BAUD DEFAULT_BATCH_SIZE : Z)
          (DEFAULT_TICK_SECONDS : spec_float).

(** [os.getenv(name, "0")] *)
Definition getenv_or_zero (name : string) : list N :=
  default (py "0") (getenv name).

(** [load_config()] *)
Definition load_config : result config :=
  match getenv "DATABASE_URL" with
  | None | Some [] => Raise (OtherException "RuntimeError")
  | Some url =>
      match py_float (getenv_or_zero "STARLINK_UPTIME_MINS") with
      | None => Raise (OtherException "ValueError")
      | Some up =>
          match py_float (getenv_or_zero "STARLINK_DOWNTIME_MINS") with
          | None => Raise (OtherException "ValueError")
          | Some down =>
              Ok {| db_url := url;
                    serial_port := getenv "SERIAL_PORT";
                    baud := DEFAULT_BAUD;
                    batch_size := DEFAULT_BATCH_SIZE;
                    tick_seconds := DEFAULT_TICK_SECONDS;
                    starlink_uptime_mins := up;
                    starlink_downtime_mins := down;
                    dsd_device_mac := getenv "DSD_DEVICE_MAC";
                    dsd_password :=
                      Password._parse_pwd py_int py_lower
                        (getenv "DSD_PASSWORD") |}
          end
      end
  end.

(** How [main] gets through its start-up: it returns a status at once,
    or goes on with a configuration, a serial path and the outcome of
    [start_bt_switcher]. *)
Inductive startup : Type :=
| Exit (status : Z)
| Started (cfg : config) (serial_path : list N)
          (switcher : option Relay.thread).

(** [main()] up to the start of its upload loop. *)
Definition main_startup : startup :=
  match load_config with
  | Raise _ => Exit 2
  | Ok cfg =>
      match find_serial_port (serial_port cfg) with
      | Raise _ => Exit 3
      | Ok serial_path =>
          Started cfg serial_path
            (fst (Relay.start_bt_switcher
                    (starlink_uptime_mins cfg) (starlink_downtime_mins cfg)
                    (dsd_device_mac cfg) (dsd_password cfg) []))
      end
  end.

End WithSystem.

(** [m] is an element of [l] that no element of [l] is smaller than. *)
Definition least_of (m : list N) (l : list (list N)) : Prop :=
  m ∈ l /\ forall x, x ∈ l -> str_lt x m = false.

(** An explicit path that is given, not empty, and exists. *)
Definition usable (path_exists : list N -> bool)
    (explicit_path : option (list N)) : bool :=
  match explicit_path with
  | Some ((_ :: _) as p) => path_exists p
  | _ => false
  end.

(** A machine with two USB serial devices and nothing else. *)
Definition two_acm_glob (pat : list N) : list (list N) :=
  if bool_decide (pat = py "/dev/ttyACM*")
  then [py "/dev/ttyACM1"; py "/dev/ttyACM0"] else [].

End Startup.

(* ================================================================== *)
(** * The relay switch loop *)
(* ================================================================== *)

Module SwitchLoop.
Import Float Switcher.

(** How an awaited call ends: it returns, raises an exception, or
    raises [asyncio.CancelledError]. *)
Inductive await : Type := Returned | Raised | Cancelled.

(** How the scan for the relay ends. *)
Inductive scan_result : Type :=
| DeviceFound | DeviceNotFound | ScanRaised | ScanCancelled.

(** The surroundings of the loop: what each interaction answers, by the
    number of interactions made before it. *)
Record world : Type := {
  is_set : nat -> bool;                (* stop_event.is_set() *)
  find_device : nat -> scan_result;    (* BleakScanner.find_device_by_address *)
  connect : nat -> await;              (* entering [async with BleakClient] *)
  write_gatt_char : nat -> await;      (* client.write_gatt_char *)
  sleep : nat -> await;                (* asyncio.sleep *)
  disconnect : nat -> await            (* leaving [async with BleakClient] *)
}.

(** The calls the loop makes. *)
Inductive action : Type :=
| Scan (mac : list N)
| Connect
| Write (frame : list Z)
| Sleep (seconds : spec_float)
| Disconnect.

(** How the [async with] block is being left. *)
Inductive leaving : Type := Normally | WithError | WithCancel.

(** The interaction the loop is waiting for. *)
Inductive state : Type :=
| OuterCheck                 (* while not stop_event.is_set(): *)
| Scanning                   (*   dev = await find_device_by_address(...) *)
| NotFoundSleep              (*   if not dev: await asyncio.sleep(3.0) *)
| Connecting                 (*   async with BleakClient(dev) as client: *)
| InnerCheck                 (*     while not stop_event.is_set(): *)
| OnWrite                    (*       await write(_on_now(password)) *)
| OnSleep                    (*       await asyncio.sleep(uptime_s) *)
| MidCheck                   (*       if stop_event.is_set(): break *)
| OffWrite                   (*       await write(_off_now(password)) *)
| OffSleep                   (*       await asyncio.sleep(downtime_s) *)
| Leaving (how : leaving)    (*   the end of the [async with] block *)
| ErrorSleep                 (* except Exception: await asyncio.sleep(3.0) *)
| Finished                   (* the loop is left; the coroutine returns *)
| Aborted.                   (* an exception leaves the coroutine *)

Definition f3 : spec_float := S754_finite false 6755399441055744 (-51).

Section WithParameters.

Variables uptime_m downtime_m : spec_float.
Variable mac : list N.
Variable password : Z.

Definition uptime_s : spec_float := phase_seconds uptime_m.
Definition downtime_s : spec_float := phase_seconds downtime_m.

(** Leaving the [async with] block after an await of its body ended. *)
Definition after_await (a : await) (next : state) (acts : list action)
  : state * list action :=
  match a with
  | Returned => (next, acts)
  | Raised => (Leaving WithError, [Disconnect])
  | Cancelled => (Leaving WithCancel, [Disconnect])
  end.

(** Writing a frame inside the block; building the frame may raise. *)
Definition start_write (frame : option (list Z)) (next : state)
  : state * list action :=
  match frame with
  | Some f => (next, [Write f])
  | None => (Leaving WithError, [Disconnect])
  end.

(** One interaction: the answer that arrives at time [t] in state [st],
    the next interaction waited for and the calls made on the way. *)
Definition step (w : world) (t : nat) (st : state) : state * list action :=
  match st with
  | OuterCheck =>
      if is_set w t then (Finished, []) else (Scanning, [Scan mac])
  | Scanning =>
      match find_device w t with
      | DeviceFound => (Connecting, [Connect])
      | DeviceNotFound => (NotFoundSleep, [Sleep f3])
      | ScanRaised => (ErrorSleep, [Sleep f3])
      | ScanCancelled => (Finished, [])
      end
  | NotFoundSleep =>
      match sleep w t with
      | Returned => (OuterCheck, [])
      | Raised => (ErrorSleep, [Sleep f3])
      | Cancelled => (Finished, [])
      end
  | Connecting =>
      match connect w t with
      | Returned => (InnerCheck, [])
      | Raised => (ErrorSleep, [Sleep f3])
      | Cancelled => (Finished, [])
      end
  | InnerCheck =>
      if is_set w t then (Leaving Normally, [Disconnect])
      else start_write (Frame._on_now password 0x01) OnWrite
  | OnWrite => after_await (write_gatt_char w t) OnSleep [Sleep uptime_s]
  | OnSleep => after_await (sleep w t) MidCheck []
  | MidCheck =>
      if is_set w t then (Leaving Normally, [Disconnect])
      else start_write (Frame._off_now password 0x01) OffWrite
  | OffWrite => after_await (write_gatt_char w t) OffSleep [Sleep downtime_s]
  | OffSleep => after_await (sleep w t) InnerCheck []
  | Leaving how =>
      match disconnect w t, how with
      | Returned, Normally => (OuterCheck, [])
      | Returned, WithError => (ErrorSleep, [Sleep f3])
      | Returned, WithCancel => (Finished, [])
      | Raised, _ => (ErrorSleep, [Sleep f3])
      | Cancelled, _ => (Finished, [])
      end
  | ErrorSleep =>
      match sleep w t with
      | Returned => (OuterCheck, [])
      | Raised | Cancelled => (Aborted, [])
      end
  | Finished => (Finished, [])
  | Aborted => (Aborted, [])
  end.

(** [n] interactions from time [t] and state [st]: the state reached
    and the calls made, oldest first. *)
Fixpoint run (w : world) (n t : nat) (st : state) : state * list action :=
  match n with
  | O => (st, [])
  | S n' =>
      let '(st', acts) := step w t st in
      let '(st'', acts') := run w n' (S t) st' in
      (st'', acts ++ acts')
  end.

(** Where [_bt_switch_loop] starts: it returns at once when bleak could
    not be imported or no address is given. *)
Definition start (bleak_available : bool) : state :=
  if bleak_available && bool_decide (mac <> []) then OuterCheck else Finished.

(** [_bt_switch_loop(uptime_m, downtime_m, mac, password, stop_event)],
    followed for [n] interactions. *)
Definition _bt_switch_loop (bleak_available : bool) (w : world) (n : nat)
  : state * list action :=
  run w n 0 (start bleak_available).

(** The two frames of the loop, spelled out. *)
Definition fon : list Z :=
  Frame.header_of password 0x01 ++ [0x01]
    ++ [Frame.xor_bytes (Frame.header_of password 0x01 ++ [0x01]); 0xAA].

Definition foff : list Z :=
  Frame.header_of password 0x02 ++ [0x01]
    ++ [Frame.xor_bytes (Frame.header_of password 0x02 ++ [0x01]); 0xAA].

End WithParameters.

(** No call is a write. *)
Definition no_write (acts : list action) : Prop :=
  forall f, Write f ∉ acts.

(** The loop has come to its end. *)
Definition ended (st : state) : Prop := st = Finished \/ st = Aborted.

(** Every write of the frame [foff] comes directly after a write of
    [fon] and a sleep of [up] seconds. *)
Definition off_after_full_on (fon foff : list Z) (up : spec_float)
    (tr : list action) : Prop :=
  forall pre post, tr = pre ++ Write foff :: post ->
                   exists pre', pre = pre' ++ [Write fon; Sleep up].

(** What holds of every trace of the loop: only the frames [fon] and
    [foff] are written, only the three delays are slept, and [foff]
    follows a full ON phase. *)
Definition trace_sound (fon foff : list Z) (up down : spec_float)
    (tr : list action) : Prop :=
  (forall f, Write f ∈ tr -> f = fon \/ f = foff) /\
  (forall d, Sleep d ∈ tr -> d = f3 \/ d = up \/ d = down) /\
  off_after_full_on fon foff up tr.

(** The end of the trace that each state of the ON phase guarantees. *)
Definition phase_suffix (fon : list Z) (up : spec_float) (st : state)
    (tr : list action) : Prop :=
  match st with
  | OnWrite => exists pre, tr = pre ++ [Write fon]
  | OnSleep | MidCheck => exists pre, tr = pre ++ [Write fon; Sleep up]
  | _ => True
  end.

(** The number of interactions the loop can still make once the stop
    flag stays raised. *)
Definition distance (st : state) : nat :=
  match st with
  | Finished | Aborted => 0
  | OuterCheck => 1
  | ErrorSleep => 2
  | Leaving _ | NotFoundSleep => 3
  | InnerCheck | MidCheck => 4
  | OnSleep | OffSleep | Connecting => 5
  | OnWrite | OffWrite | Scanning => 6
  end.

(** A world where everything works and the stop flag is raised from
    time [t0] on. *)
Definition calm_world (t0 : nat) : world :=
  {| is_set := fun t => bool_decide (t0 <= t)%nat;
     find_device := fun _ => DeviceFound;
     connect := fun _ => Returned;
     write_gatt_char := fun _ => Returned;
     sleep := fun _ => Returned;
     disconnect := fun _ => Returned |}.

End SwitchLoop.

(* ================================================================== *)
(** * A decoder with CPython's limit on integer literals *)
(* ================================================================== *)

(** [json.loads] converts an integer literal with [int], and [int]
    (CPython 3.11 and later) refuses a literal of more than 4300 digits
    with [ValueError], which is not a [json.JSONDecodeError]. *)

Module DecoderLimit.
Import PyStr Parser.

Definition is_digit (c : N) : bool := ((48 <=? c) && (c <=? 57))%N.

(** Whether [t] holds more than [limit] digits in a row, [run] of them
    having just been read. *)
Fixpoint digit_run_exceeds (limit run : nat) (t : list N) : bool :=
  match t with
  | [] => false
  | c :: t' =>
      if is_digit c
      then if (limit <? S run)%nat then true
           else digit_run_exceeds limit (S run) t'
      else digit_run_exceeds limit 0 t'
  end.

(** [sys.int_info.default_max_str_digits]. *)
Definition max_str_digits : nat := 4300.

(** A decoder that raises [ValueError] on a text with a digit run over
    the limit and treats every other text as [sample_json_loads]
    does. *)
Definition int_limit_json_loads (t : list N) : result pyvalue :=
  if digit_run_exceeds max_str_digits 0 t
  then Raise (OtherException "ValueError")
  else sample_json_loads t.

(** The object whose member "a" is the integer written with 4301
    digits 1. *)
Definition text_huge_int : list N :=
  py "{" ++ quoted "a" ++ py ":" ++ repeat 49%N 4301 ++ py "}".

Definition line_huge_int : list N := text_huge_int.

Definition line_legacy_huge_int : list N := py "ok seq=1 | " ++ text_huge_int.

End DecoderLimit.

(* ================================================================== *)
(** * Properties of the frame codec *)
(* ================================================================== *)

Section FrameFacts.
Import Frame.

(** The two commands of the relay, for the default password 1234. *)
Example on_now_default :
  _on_now 0x04D2 0x01 = Some [0xA1; 0x04; 0xD2; 0x01; 0x01; 0x77; 0xAA].
Proof. reflexivity. Qed.

Example off_now_default :
  _off_now 0x04D2 0x01 = Some [0xA1; 0x04; 0xD2; 0x02; 0x01; 0x74; 0xAA].
Proof. reflexivity. Qed.

(** An opcode outside [range(256)] makes [bytearray] raise. *)
Example frame_opcode_out_of_range : _frame 0x04D2 256 [] = None.
Proof. reflexivity. Qed.

Lemma is_byte_spec b : is_byte b = true <-> 0 <= b < 256.
Proof. unfold is_byte. rewrite andb_true_iff, Z.leb_le, Z.ltb_lt. tauto. Qed.

Lemma xor_loop_acc l a :
  fold_left (fun x b => Z.lxor x b) l a = Z.lxor a (xor_bytes l).
Proof.
  revert a. induction l as [|b l IH]; intros a; simpl.
  - now rewrite Z.lxor_0_r.
  - rewrite IH. now rewrite Z.lxor_assoc.
Qed.

Lemma xor_loop_bytes l : xor_loop l = xor_bytes l.
Proof. unfold xor_loop. rewrite xor_loop_acc. apply Z.lxor_0_l. Qed.

Lemma xor_bytes_app l1 l2 :
  xor_bytes (l1 ++ l2) = Z.lxor (xor_bytes l1) (xor_bytes l2).
Proof.
  induction l1 as [|b l1 IH]; simpl.
  - now rewrite Z.lxor_0_l.
  - rewrite IH. now rewrite Z.lxor_assoc.
Qed.

Lemma byte_bits b : 0 <= b < 256 <-> (0 <= b /\ forall n, 8 <= n -> Z.testbit b n = false).
Proof.
  split.
  - intros [H0 H1]. split; [easy|]. intros n Hn.
    destruct (Z.eq_dec b 0) as [->|Hb]; [apply Z.testbit_0_l|].
    apply Z.bits_above_log2; [lia|].
    assert (Z.log2 b < 8); [|lia].
    apply Z.log2_lt_pow2; lia.
  - intros [H0 H]. split; [easy|].
    destruct (Z.eq_dec b 0) as [->|Hb]; [lia|].
    destruct (Z.lt_ge_cases b 256) as [|Hge]; [easy|exfalso].
    assert (Hl : 8 <= Z.log2 b) by (apply (Z.log2_le_pow2 b 8); lia).
    specialize (H _ Hl). rewrite Z.bit_log2 in H by lia. discriminate.
Qed.

Lemma lxor_byte a b : 0 <= a < 256 -> 0 <= b < 256 -> 0 <= Z.lxor a b < 256.
Proof.
  rewrite !byte_bits. intros [Ha Ha'] [Hb Hb']. split.
  - now apply Z.lxor_nonneg.
  - intros n Hn. rewrite Z.lxor_spec, Ha', Hb' by easy. reflexivity.
Qed.

Lemma xor_bytes_byte l :
  Forall (fun b => 0 <= b < 256) l -> 0 <= xor_bytes l < 256.
Proof.
  induction 1 as [|b l Hb _ IH]; simpl; [lia|]. now apply lxor_byte.
Qed.

Lemma land_255_byte a : 0 <= Z.land a 0xFF < 256.
Proof.
  change 0xFF with (Z.ones 8). rewrite Z.land_ones by lia.
  apply Z.mod_pos_bound. lia.
Qed.

Lemma forallb_is_byte l :
  forallb is_byte l = true <-> Forall (fun b => 0 <= b < 256) l.
Proof.
  rewrite forallb_forall, Forall_forall.
  split; intros H x Hx; apply is_byte_spec.
  - apply H. now apply list_elem_of_In.
  - apply H. now apply list_elem_of_In.
Qed.

Lemma byte_seq_ok l :
  Forall (fun b => 0 <= b < 256) l -> byte_seq l = Some l.
Proof. intros H. unfold byte_seq. now rewrite (proj2 (forallb_is_byte l) H). Qed.

Lemma header_bytes password opcode :
  0 <= opcode < 256 ->
  Forall (fun b => 0 <= b < 256) (header_of password opcode).
Proof.
  intros Ho. unfold header_of.
  repeat constructor; try apply land_255_byte; lia.
Qed.

Lemma tail_seq_ok l :
  Forall (fun b => 0 <= b < 256) l ->
  byte_seq [xor_bytes l; 0xAA] = Some [xor_bytes l; 0xAA].
Proof.
  intros Hl. apply byte_seq_ok.
  repeat constructor; try lia; now apply xor_bytes_byte.
Qed.

Lemma body_bytes password opcode content :
  0 <= opcode < 256 ->
  Forall (fun b => 0 <= b < 256) content ->
  Forall (fun b => 0 <= b < 256) (header_of password opcode ++ content).
Proof. intros Ho Hc. apply Forall_app. split; [now apply header_bytes|easy]. Qed.

(** Closed form of [_frame] on well-formed arguments. *)
Lemma _frame_eq password opcode content :
  0 <= opcode < 256 ->
  Forall (fun b => 0 <= b < 256) content ->
  _frame password opcode content =
  Some (header_of password opcode ++ content ++
        [xor_bytes (header_of password opcode ++ content); 0xAA]).
Proof.
  intros Ho Hc. unfold _frame.
  fold (header_of password opcode).
  rewrite (byte_seq_ok _ (header_bytes password opcode Ho)).
  cbv zeta. rewrite xor_loop_bytes.
  rewrite (tail_seq_ok _ (body_bytes password opcode content Ho Hc)).
  now rewrite <- app_assoc.
Qed.

Lemma build_frame_eq PWD opcode content :
  0 <= opcode < 256 ->
  Forall (fun b => 0 <= b < 256) content ->
  build_frame PWD opcode content = _frame PWD opcode content.
Proof.
  intros Ho Hc. rewrite _frame_eq by easy. unfold build_frame.
  fold (header_of PWD opcode).
  rewrite (byte_seq_ok _ (header_bytes PWD opcode Ho)).
  rewrite (byte_seq_ok _ Hc).
  cbv zeta. rewrite xor_loop_bytes.
  rewrite (tail_seq_ok _ (body_bytes PWD opcode content Ho Hc)).
  now rewrite <- app_assoc.
Qed.


Lemma checksum_ok_snoc body c t :
  checksum_ok (body ++ [c; t]) = (c =? xor_bytes body).
Proof.
  unfold checksum_ok. rewrite rev_app_distr. simpl.
  now rewrite rev_involutive.
Qed.

Lemma xor_bytes_insert body i old b :
  body !! i = Some old ->
  xor_bytes (<[i:=b]> body) = Z.lxor (xor_bytes body) (Z.lxor old b).
Proof.
  revert i. induction body as [|a body IH]; intros [|i] Hi; try discriminate.
  - injection Hi as ->. simpl.
    rewrite (Z.lxor_comm old b), <- Z.lxor_assoc.
    rewrite (Z.lxor_comm (Z.lxor old (xor_bytes body))).
    rewrite (Z.lxor_comm old (xor_bytes body)), Z.lxor_assoc.
    rewrite (Z.lxor_assoc (xor_bytes body)), Z.lxor_nilpotent, Z.lxor_0_r.
    reflexivity.
  - simpl in *. rewrite (IH _ Hi). now rewrite Z.lxor_assoc.
Qed.

Lemma lxor_changes x old b : old <> b -> x <> Z.lxor x (Z.lxor old b).
Proof.
  intros Hne Heq. apply Hne.
  apply Z.lxor_eq.
  rewrite <- (Z.lxor_0_l (Z.lxor old b)).
  rewrite <- (Z.lxor_nilpotent x) at 1.
  rewrite Z.lxor_assoc, <- Heq. apply Z.lxor_nilpotent.
Qed.

(** A change in front of the terminator is always detected. *)
Lemma change_detected_before_terminator body t i :
  (i < length body + 1)%nat ->
  change_detected_at (body ++ [xor_bytes body; t]) i.
Proof.
  intros Hi b _ Hb.
  destruct (Nat.lt_ge_cases i (length body)) as [Hlt|Hge].
  - rewrite insert_app_l by easy.
    rewrite checksum_ok_snoc. apply Z.eqb_neq.
    destruct (lookup_lt_is_Some_2 body i Hlt) as [old Hold].
    rewrite (xor_bytes_insert _ _ _ _ Hold).
    apply lxor_changes. intros ->. apply Hb.
    now rewrite lookup_app_l.
  - assert (i = length body) as -> by lia.
    rewrite insert_app_r_alt by lia. rewrite Nat.sub_diag. simpl.
    rewrite checksum_ok_snoc. apply Z.eqb_neq. intros ->. apply Hb.
    rewrite lookup_app_r by lia. now rewrite Nat.sub_diag.
Qed.

(** A change of the terminator is never detected. *)
Lemma terminator_change_undetected body t b :
  checksum_ok (<[(length body + 1)%nat:=b]> (body ++ [xor_bytes body; t])) = true.
Proof.
  rewrite insert_app_r_alt by lia.
  replace (length body + 1 - length body)%nat with 1%nat by lia. simpl.
  rewrite checksum_ok_snoc. apply Z.eqb_refl.
Qed.

(** C3. For every password in [0, 0xFFFF], every 8-bit opcode and every
    content of at most 255 bytes, [_frame] (and [build_frame] with that
    password) returns exactly the sync byte 0xA1, the password high and
    low bytes, the opcode, the content, the XOR of all these bytes and
    the terminator 0xAA; the result is [len(content) + 6] bytes long and
    the call does not fail. *)
Theorem frame_layout (password opcode : Z) (content : list Z)
    (Hpwd : 0 <= password <= 0xFFFF)
    (Hop : 0 <= opcode < 256)
    (Hbytes : Forall (fun b => 0 <= b < 256) content)
    (Hlen : (length content <= 255)%nat) :
  let covered := [0xA1; Z.land (Z.shiftr password 8) 0xFF;
                  Z.land password 0xFF; opcode] ++ content in
  exists f,
    _frame password opcode content = Some f /\
    build_frame password opcode content = Some f /\
    f = covered ++ [xor_bytes covered; 0xAA] /\
    length f = (length content + 6)%nat.
Proof.
  intros covered.
  exists (covered ++ [xor_bytes covered; 0xAA]).
  assert (Hf : _frame password opcode content =
               Some (covered ++ [xor_bytes covered; 0xAA])).
  { rewrite _frame_eq by easy. unfold covered. fold (header_of password opcode).
    now rewrite <- app_assoc. }
  repeat split.
  - exact Hf.
  - now rewrite build_frame_eq.
  - unfold covered. rewrite !length_app. simpl. lia.
Qed.

Lemma frame_layout_witness :
  exists f,
    _frame 0x04D2 0x01 [0x01] = Some f /\
    build_frame 0x04D2 0x01 [0x01] = Some f /\
    f = [0xA1; 0x04; 0xD2; 0x01; 0x01] ++ [0x77; 0xAA] /\
    length f = 7%nat.
Proof.
  apply (frame_layout 0x04D2 0x01 [0x01]).
  - lia.
  - lia.
  - repeat constructor; lia.
  - simpl. lia.
Defined.

(** C4 (as stated): changing any single byte of an encoded frame breaks
    the checksum relation.  The terminator is not covered by the
    checksum, so this fails at the last position: in the ON frame for
    password 1234 the terminator 0xAA can be replaced by 0x00 and the
    checksum byte still equals the XOR of the bytes in front of it. *)
Lemma frame_any_byte_change_counterexample :
  exists f,
    _frame 0x04D2 0x01 [0x01] = Some f /\
    ~ (forall i, (i < length f)%nat -> change_detected_at f i).
Proof.
  exists [0xA1; 0x04; 0xD2; 0x01; 0x01; 0x77; 0xAA]. split; [reflexivity|].
  intros H. specialize (H 6%nat ltac:(simpl; lia) 0 ltac:(lia)).
  simpl in H. discriminate H. intros [=].
Qed.

(** C4 (amended). For all valid (password, opcode, content), the checksum
    byte of the encoded frame equals the XOR of 0xA1, the two password
    bytes, the opcode and all content bytes, the checksum relation
    holds on the frame, and changing any single byte other than the
    final terminator byte makes the relation fail. *)
Theorem frame_checksum_detects_change (password opcode : Z) (content f : list Z)
    (Hpwd : 0 <= password <= 0xFFFF)
    (Hop : 0 <= opcode < 256)
    (Hbytes : Forall (fun b => 0 <= b < 256) content)
    (Hframe : _frame password opcode content = Some f) :
  checksum_byte f =
    Some (xor_bytes ([0xA1; Z.land (Z.shiftr password 8) 0xFF;
                      Z.land password 0xFF; opcode] ++ content)) /\
  checksum_ok f = true /\
  (forall i, (i < length f - 1)%nat -> change_detected_at f i).
Proof.
  fold (header_of password opcode).
  set (body := header_of password opcode ++ content).
  assert (f = body ++ [xor_bytes body; 0xAA]) as ->.
  { rewrite _frame_eq in Hframe by easy. unfold body.
    rewrite <- app_assoc. congruence. }
  clear Hframe. clearbody body.
  repeat split.
  - unfold checksum_byte. rewrite length_app. simpl.
    replace (length body + 2 - 2)%nat with (length body) by lia.
    rewrite lookup_app_r by lia. now rewrite Nat.sub_diag.
  - rewrite checksum_ok_snoc. apply Z.eqb_refl.
  - intros i Hi. apply change_detected_before_terminator.
    rewrite length_app in Hi. simpl in Hi. lia.
Qed.

Lemma frame_checksum_detects_change_witness :
  checksum_byte [0xA1; 0x04; 0xD2; 0x01; 0x01; 0x77; 0xAA] = Some 0x77 /\
  checksum_ok [0xA1; 0x04; 0xD2; 0x01; 0x01; 0x77; 0xAA] = true /\
  (forall i, (i < 6)%nat ->
     change_detected_at [0xA1; 0x04; 0xD2; 0x01; 0x01; 0x77; 0xAA] i).
Proof.
  apply (frame_checksum_detects_change 0x04D2 0x01 [0x01]).
  - lia.
  - lia.
  - repeat constructor; lia.
  - reflexivity.
Defined.

End FrameFacts.

(* ================================================================== *)
(** * Properties of the delivery queue *)
(* ================================================================== *)

Section QueueFacts.
Import Queue.
Context {A : Type}.
Implicit Types (q out items arrivals : list A) (n max_items : Z).

(** The loop moves items from the front of the deque to the end of the
    output until the output holds [max_items] items or the deque is
    empty. *)
Lemma dequeue_loop_eq max_items q out :
  let k := Z.to_nat (max_items - Z.of_nat (length out)) in
  dequeue_loop max_items q out = (out ++ take k q, drop k q).
Proof.
  revert out. induction q as [|item q IH]; intros out k; simpl.
  - now rewrite take_nil, drop_nil, app_nil_r.
  - destruct (Z.ltb_spec (Z.of_nat (length out)) max_items) as [Hlt|Hge].
    + rewrite IH. rewrite length_app. simpl.
      assert (Hk : k = S (Z.to_nat (max_items - Z.of_nat (length out + 1)))).
      { unfold k. lia. }
      rewrite Hk. simpl. now rewrite <- app_assoc.
    + assert (Hk : k = 0%nat) by (unfold k; lia).
      rewrite Hk. simpl. now rewrite app_nil_r.
Qed.

Lemma dequeue_batch_eq q n :
  dequeue_batch q n = (take (Z.to_nat n) q, drop (Z.to_nat n) q).
Proof.
  unfold dequeue_batch. rewrite dequeue_loop_eq. simpl.
  now rewrite Z.sub_0_r.
Qed.

Lemma enqueue_all q items : fold_left enqueue items q = q ++ items.
Proof.
  revert q. induction items as [|x items IH]; intros q; simpl.
  - now rewrite app_nil_r.
  - rewrite IH. unfold enqueue. now rewrite <- app_assoc.
Qed.

(** The requeue handler appends the batch, newest item first, behind
    everything already in the queue. *)
Lemma requeue_eq q items : requeue q items = q ++ rev items.
Proof. unfold requeue. apply enqueue_all. Qed.

(** The queue after a tick whose flush raised. *)
Lemma flush_tick_failed flush_queue n arrivals q e :
  flush_queue (take (Z.to_nat n) q) = Raise e ->
  flush_tick flush_queue n arrivals q =
  match take (Z.to_nat n) q with
  | [] => drop (Z.to_nat n) q
  | _ => drop (Z.to_nat n) q ++ arrivals ++ rev (take (Z.to_nat n) q)
  end.
Proof.
  intros He. unfold flush_tick. rewrite dequeue_batch_eq.
  destruct (take (Z.to_nat n) q) as [|x items] eqn:Hb; [reflexivity|].
  rewrite He, requeue_eq, enqueue_all. now rewrite <- app_assoc.
Qed.

(** No item is lost by a failed tick. *)
Lemma flush_tick_failed_perm flush_queue n arrivals q e :
  take (Z.to_nat n) q <> [] ->
  flush_queue (take (Z.to_nat n) q) = Raise e ->
  flush_tick flush_queue n arrivals q ≡ₚ q ++ arrivals.
Proof.
  intros Hne He. rewrite (flush_tick_failed _ _ _ _ _ He).
  destruct (take (Z.to_nat n) q) as [|x items] eqn:Hb; [easy|].
  rewrite <- Hb.
  transitivity ((take (Z.to_nat n) q ++ drop (Z.to_nat n) q) ++ arrivals).
  - rewrite <- Permutation_rev.
    rewrite (Permutation_app_comm arrivals).
    rewrite app_assoc.
    now rewrite (Permutation_app_comm (drop _ q)).
  - now rewrite take_drop.
Qed.

(** C2. A queue state is the sequence of its enqueued items, oldest
    first.  For every queue state and every non-negative [max_items],
    [dequeue_batch] returns the [min(max_items, length)] oldest items in
    enqueue order and leaves exactly the remaining items, in order, in
    the queue; on an empty queue it returns the empty list. *)
Theorem dequeue_batch_fifo q n (Hn : 0 <= n) :
  fold_left enqueue q [] = q /\
  let '(batch, rest) := dequeue_batch q n in
  batch = take (Z.to_nat n) q /\
  rest = drop (Z.to_nat n) q /\
  length batch = Nat.min (Z.to_nat n) (length q) /\
  batch ++ rest = q /\
  dequeue_batch (@nil A) n = ([], []).
Proof.
  split; [apply enqueue_all|].
  rewrite !dequeue_batch_eq. repeat split.
  - apply length_take.
  - apply take_drop.
  - now rewrite take_nil, drop_nil.
Qed.

End QueueFacts.

Lemma dequeue_batch_fifo_witness :
  fold_left Queue.enqueue [10; 20; 30] [] = [10; 20; 30] /\
  let '(batch, rest) := Queue.dequeue_batch [10; 20; 30] 2 in
  batch = [10; 20] /\
  rest = [30] /\
  length batch = 2%nat /\
  batch ++ rest = [10; 20; 30] /\
  Queue.dequeue_batch (@nil Z) 2 = ([], []).
Proof.
  apply (dequeue_batch_fifo [10; 20; 30] 2). lia.
Defined.

(** C1 (what the code does). A batch of two is taken from the queue
    [1; 2; 3] and its flush raises: the handler leaves [3; 2; 1], the
    batch behind the newer item and in reverse order, where the
    original order [1; 2; 3] was to be restored. *)
Theorem failed_flush_requeues_reversed_at_tail :
  Queue.flush_tick (fun _ => Raise (OtherException "OperationalError"))
                   2 [] [1; 2; 3] = [3; 2; 1]
  /\ Queue.flush_tick (fun _ => Raise (OtherException "OperationalError"))
                      2 [4] [1; 2; 3] = [3; 4; 2; 1].
Proof. split; reflexivity. Qed.

(* ================================================================== *)
(** * Properties of the relay controller start-up *)
(* ================================================================== *)

Section RelayFacts.
Import Relay.

(** On numbers, [x <= 0] fails exactly when [0 < x]. *)
Lemma not_leb_zero_iff x :
  is_number x = true -> (SFleb x zero = false <-> SFltb zero x = true).
Proof. destruct x as [[]|[]| |[] m e]; cbv; intros H; split; congruence. Qed.

Lemma truthy_iff mac :
  truthy mac = true <-> exists m, mac = Some m /\ m <> [].
Proof.
  destruct mac as [[|c m]|]; simpl; split; try congruence.
  - intros (m & [= <-] & Hm). now contradict Hm.
  - intros _. now exists (c :: m).
  - intros (m & Hm & _). discriminate.
Qed.

Lemma falsy_iff mac :
  truthy mac = false <-> mac = None \/ mac = Some [].
Proof.
  destruct mac as [[|c m]|]; simpl; split; intros H; try tauto; try congruence.
  destruct H as [H|H]; discriminate H.
Qed.

(** The guard of [start_bt_switcher]. *)
Lemma start_bt_switcher_disabled up down mac pw running :
  SFleb up zero = true \/ SFleb down zero = true \/ truthy mac = false ->
  start_bt_switcher up down mac pw running = (None, running).
Proof.
  intros H. unfold start_bt_switcher.
  destruct (SFleb up zero), (SFleb down zero), (truthy mac); simpl;
    try reflexivity.
  destruct H as [H|[H|H]]; discriminate H.
Qed.

Lemma start_bt_switcher_enabled up down mac pw running :
  SFleb up zero = false -> SFleb down zero = false -> truthy mac = true ->
  exists t, start_bt_switcher up down mac pw running = (Some t, running ++ [t])
            /\ uptime_m t = up /\ downtime_m t = down
            /\ Some (Relay.mac t) = mac /\ password t = pw.
Proof.
  intros Hu Hd Hm. unfold start_bt_switcher. rewrite Hu, Hd, Hm. simpl.
  eexists. split; [reflexivity|]. simpl. repeat split.
  destruct mac as [[|c m]|]; simpl in *; congruence.
Qed.

(** C9 (as stated): the controller thread is started exactly when
    on-minutes > 0, off-minutes > 0 and a device address is configured.
    With STARLINK_UPTIME_MINS=nan the on-minutes are NaN, one minute
    off and an address configured: [nan > 0] is false, but so is
    [nan <= 0], the guard lets the configuration through and the thread
    is started. *)
Lemma start_bt_switcher_nan_counterexample :
  let one := S754_finite false 4503599627370496 (-52) in
  let mac := Some (PyStr.py "AA:BB:CC:DD:EE:FF") in
  (exists t, start_bt_switcher S754_nan one mac 0x04D2 [] = (Some t, [t]) /\
             uptime_m t = S754_nan) /\
  SFltb zero S754_nan = false /\
  ~ ((exists t, fst (start_bt_switcher S754_nan one mac 0x04D2 []) = Some t) <->
     (SFltb zero S754_nan = true /\ SFltb zero one = true /\
      exists m, mac = Some m /\ m <> [])).
Proof.
  intros one mac. split; [|split].
  - eexists. split; reflexivity.
  - reflexivity.
  - intros [H _]. destruct H as (H & _); [|discriminate H].
    eexists. reflexivity.
Qed.

(** C9 (amended). [start_bt_switcher] starts and returns a controller
    thread exactly when neither on-minutes nor off-minutes is <= 0 and
    a non-empty device address is configured; the thread returned is
    the one thread added to the started ones, the daemon "starlink-ble"
    that runs the duty-cycle loop with these on-minutes, off-minutes,
    address and password.  Whenever a phase is <= 0 or the address is
    absent or empty it starts nothing and returns [None].  When both
    phases are numbers, not being <= 0 is being > 0, and the thread is
    started exactly when on-minutes > 0, off-minutes > 0 and a
    non-empty address is configured. *)
Theorem start_bt_switcher_iff_nondegenerate
    (up down : spec_float) (mac : option (list N)) (pw : Z) (running : threads) :
  let '(r, running') := start_bt_switcher up down mac pw running in
  ((exists t, r = Some t) <->
   (SFleb up zero = false /\ SFleb down zero = false /\
    exists m, mac = Some m /\ m <> [])) /\
  (forall t, r = Some t ->
     running' = running ++ [t] /\
     thread_name t = "starlink-ble"%string /\ daemon t = true /\
     uptime_m t = up /\ downtime_m t = down /\
     Some (Relay.mac t) = mac /\ password t = pw) /\
  ((SFleb up zero = true \/ SFleb down zero = true \/
    mac = None \/ mac = Some []) ->
   r = None /\ running' = running) /\
  (is_number up = true -> is_number down = true ->
   ((exists t, r = Some t) <->
    (SFltb zero up = true /\ SFltb zero down = true /\
     exists m, mac = Some m /\ m <> []))).
Proof.
  pose proof (not_leb_zero_iff up) as Hu'.
  pose proof (not_leb_zero_iff down) as Hd'.
  pose proof (truthy_iff mac) as Ht. pose proof (falsy_iff mac) as Hf.
  assert (Hoff : SFleb up zero = true \/ SFleb down zero = true \/
                 truthy mac = false ->
                 start_bt_switcher up down mac pw running = (None, running))
    by apply start_bt_switcher_disabled.
  destruct (SFleb up zero) eqn:Hu;
    [|destruct (SFleb down zero) eqn:Hd; [|destruct (truthy mac) eqn:Hm]].
  - rewrite Hoff by auto. split; [|split; [|split]].
    + split; [intros (t & [=])|intros ([=] & _)].
    + intros t [=].
    + auto.
    + intros Hnu _. split; [intros (t & [=])|intros (H & _)].
      apply Hu' in H; [discriminate H|exact Hnu].
  - rewrite Hoff by auto. split; [|split; [|split]].
    + split; [intros (t & [=])|intros (_ & [=] & _)].
    + intros t [=].
    + auto.
    + intros _ Hnd. split; [intros (t & [=])|intros (_ & H & _)].
      apply Hd' in H; [discriminate H|exact Hnd].
  - unfold start_bt_switcher. rewrite Hu, Hd, Hm. simpl.
    split; [|split; [|split]].
    + split; [intros _|intros _; eauto].
      split; [reflexivity|]. split; [reflexivity|]. now apply Ht.
    + intros t [= <-]. simpl. repeat split.
      destruct mac as [[|c m]|]; simpl in *; congruence.
    + intros [H|[H|H]]; try discriminate H.
      apply Hf in H. discriminate H.
    + intros Hnu Hnd. split; [intros _|intros _; eauto].
      split; [now apply Hu'|]. split; [now apply Hd'|]. now apply Ht.
  - rewrite Hoff by auto. split; [|split; [|split]].
    + split; [intros (t & [=])|intros (_ & _ & H)].
      apply Ht in H. discriminate H.
    + intros t [=].
    + auto.
    + intros _ _. split; [intros (t & [=])|intros (_ & _ & H)].
      apply Ht in H. discriminate H.
Qed.

End RelayFacts.

(* ================================================================== *)
(** * Properties of identity derivation and translation *)
(* ================================================================== *)

Section TranslatorFacts.
Import PyStr Translator.

(** Known check values of CRC-32. *)
Example crc32_a : Crc.crc32 [97] = 0xE8B7BE43.
Proof. reflexivity. Qed.

Example crc32_check : Crc.crc32 [49; 50; 51; 52; 53; 54; 55; 56; 57] = 0xCBF43926.
Proof. reflexivity. Qed.

Example utf8_e_acute : utf8_encode [0xE9%N] = Some [0xC3; 0xA9].
Proof. reflexivity. Qed.

Example utf8_euro : utf8_encode [0x20AC%N] = Some [0xE2; 0x82; 0xAC].
Proof. reflexivity. Qed.

Example utf8_lone_surrogate : utf8_encode [0xD800%N] = None.
Proof. reflexivity. Qed.

Lemma land_mask31 a : 0 <= Z.land a 0x7FFFFFFF <= 2 ^ 31 - 1.
Proof.
  change 0x7FFFFFFF with (Z.ones 31). rewrite Z.land_ones by lia.
  pose proof (Z.mod_pos_bound a (2 ^ 31) ltac:(lia)). lia.
Qed.

Lemma land_mask32_mask31 a :
  Z.land (Z.land a 0xFFFFFFFF) 0x7FFFFFFF = Z.land a 0x7FFFFFFF.
Proof. rewrite <- Z.land_assoc. reflexivity. Qed.

Lemma stable_hardware_id_encoded name data :
  utf8_encode name = Some data ->
  stable_hardware_id name = Ok (1000 + Z.land (Crc.crc32 data) 0x7FFFFFFF).
Proof.
  intros H. unfold stable_hardware_id. rewrite H. cbv zeta.
  now rewrite land_mask32_mask31.
Qed.

Lemma stable_hardware_id_range name h :
  stable_hardware_id name = Ok h -> 1000 <= h <= 1000 + 2 ^ 31 - 1.
Proof.
  unfold stable_hardware_id.
  destruct (utf8_encode name) as [data|]; [|discriminate].
  intros [= <-]. pose proof (land_mask31 (Z.land (Crc.crc32 data) 0xFFFFFFFF)).
  lia.
Qed.

Lemma utf8_encode_char_none c :
  utf8_encode_char c = None <-> Shape.is_scalar_value c = false.
Proof.
  unfold utf8_encode_char, Shape.is_scalar_value. cbv zeta.
  repeat match goal with
         | |- context [Z.ltb ?a ?b] => destruct (Z.ltb_spec a b)
         | |- context [Z.leb ?a ?b] => destruct (Z.leb_spec a b)
         | |- context [N.ltb ?a ?b] => destruct (N.ltb_spec a b)
         end; simpl; split; intros Hgoal; try discriminate Hgoal;
    try reflexivity; lia.
Qed.

Lemma utf8_encode_none s :
  utf8_encode s = None <-> Exists (fun c => Shape.is_scalar_value c = false) s.
Proof.
  induction s as [|c s IH]; simpl.
  - split; [discriminate|]. intros H. inversion H.
  - rewrite Exists_cons, <- IH, <- utf8_encode_char_none.
    destruct (utf8_encode_char c), (utf8_encode s); split; try discriminate;
      auto; intros [H|H]; discriminate H.
Qed.

(** The names with UTF-8 bytes are those made of scalar values. *)
Lemma utf8_encode_some s data :
  utf8_encode s = Some data ->
  Forall (fun c => Shape.is_scalar_value c = true) s.
Proof.
  intros Hs. apply Forall_forall. intros c Hc.
  destruct (Shape.is_scalar_value c) eqn:Hv; [reflexivity|].
  assert (Hnone : utf8_encode s = None).
  { apply utf8_encode_none, Exists_exists. eauto. }
  congruence.
Qed.

Section WithEnvironment.
Variables DEFAULT_LAT DEFAULT_LON : option spec_float.
Variable py_format : pyvalue -> list N.

Abbreviation translate := (translate_packet DEFAULT_LAT DEFAULT_LON py_format).
Abbreviation pkt_name := (resolved_name py_format).

(** What a successful translation returns, field by field. *)
Lemma translate_packet_ok now pkt s r :
  translate now pkt = Ok (s, r) ->
  stable_hardware_id (pkt_name pkt) = Ok (hardware_id s) /\
  name s = pkt_name pkt /\
  sensor_id r = hardware_id s /\
  ts r = now /\
  gps_latitude s =
    (if is_int_or_float (dict_get pkt (py "gps_lat"))
     then dict_get pkt (py "gps_lat") else default_coord DEFAULT_LAT) /\
  gps_longitude s =
    (if is_int_or_float (dict_get pkt (py "gps_long"))
     then dict_get pkt (py "gps_long") else default_coord DEFAULT_LON) /\
  metadata s = <[py "net" := dict_get pkt (py "net")]>
                 (<[py "source" := PyStr (py "radio")]> ∅).
Proof.
  unfold translate_packet. cbv zeta.
  destruct (stable_hardware_id _) as [h|e] eqn:Hid; [|discriminate].
  change (stable_hardware_id (pkt_name pkt) = Ok h) in Hid.
  intros H. inversion H; subst. simpl. repeat split; exact Hid.
Qed.

(** Translation succeeds exactly when the identity can be derived. *)
Lemma translate_packet_total now pkt h :
  stable_hardware_id (pkt_name pkt) = Ok h ->
  exists s r, translate now pkt = Ok (s, r) /\ hardware_id s = h.
Proof.
  intros H. unfold translate_packet. cbv zeta.
  change (stable_hardware_id _) with (stable_hardware_id (pkt_name pkt)).
  rewrite H. eexists _, _. split; reflexivity.
Qed.

Lemma translate_packet_raises now pkt e :
  stable_hardware_id (pkt_name pkt) = Raise e ->
  translate now pkt = Raise e.
Proof.
  intros H. unfold translate_packet. cbv zeta.
  change (stable_hardware_id _) with (stable_hardware_id (pkt_name pkt)).
  now rewrite H.
Qed.

(** Two calls on the same packet, at any two clock readings, agree on
    the identity. *)
Lemma translate_packet_deterministic now1 now2 pkt :
  match translate now1 pkt, translate now2 pkt with
  | Ok (s1, r1), Ok (s2, r2) =>
      hardware_id s1 = hardware_id s2 /\
      sensor_id r1 = hardware_id s1 /\ sensor_id r2 = hardware_id s2
  | Raise e1, Raise e2 => e1 = e2
  | _, _ => False
  end.
Proof.
  destruct (stable_hardware_id (pkt_name pkt)) as [h|e] eqn:Hid.
  - destruct (translate_packet_total now1 pkt h Hid) as (s1 & r1 & H1 & Hh1).
    destruct (translate_packet_total now2 pkt h Hid) as (s2 & r2 & H2 & Hh2).
    rewrite H1, H2.
    apply translate_packet_ok in H1 as (_ & _ & Hr1 & _).
    apply translate_packet_ok in H2 as (_ & _ & Hr2 & _).
    repeat split; congruence.
  - now rewrite !(translate_packet_raises _ _ _ Hid).
Qed.

Lemma resolved_name_named pkt name :
  pkt !! py "name" = Some (PyStr name) -> name <> [] -> pkt_name pkt = name.
Proof.
  intros H Hne. unfold resolved_name, dict_get. rewrite H. simpl.
  destruct name; [now contradict Hne|reflexivity].
Qed.

(** C7 (amended). For every name string made of Unicode scalar values
    (one that has UTF-8 bytes), [stable_hardware_id] returns 1000 + (the
    CRC32 of the UTF-8 bytes of the name, reduced to its low 31 bits),
    and a packet with that name is translated to a sensor with this
    [hardware_id]; a name holding any other code point (a lone
    surrogate) has no UTF-8 bytes and [stable_hardware_id] raises
    [UnicodeEncodeError].  An identity that is returned lies in
    [1000, 1000 + 2^31 - 1], and two calls of [translate_packet] on the
    same packet agree, whatever the clock reads: on the [hardware_id],
    or on the exception. *)
Theorem stable_hardware_id_crc32 (name : list N) :
  match utf8_encode name with
  | Some data =>
      Forall (fun c => Shape.is_scalar_value c = true) name /\
      stable_hardware_id name = Ok (1000 + Crc.crc32 data mod 2 ^ 31) /\
      (forall now pkt,
         pkt !! py "name" = Some (PyStr name) -> name <> [] ->
         exists s r, translate now pkt = Ok (s, r) /\
                     hardware_id s = 1000 + Crc.crc32 data mod 2 ^ 31)
  | None =>
      Exists (fun c => Shape.is_scalar_value c = false) name /\
      stable_hardware_id name = Raise UnicodeEncodeError
  end /\
  (forall h, stable_hardware_id name = Ok h ->
             1000 <= h <= 1000 + 2 ^ 31 - 1) /\
  (forall now1 now2 pkt,
     match translate now1 pkt, translate now2 pkt with
     | Ok (s1, r1), Ok (s2, r2) =>
         hardware_id s1 = hardware_id s2 /\
         sensor_id r1 = hardware_id s1 /\ sensor_id r2 = hardware_id s2
     | Raise e1, Raise e2 => e1 = e2
     | _, _ => False
     end).
Proof.
  split; [|split].
  - destruct (utf8_encode name) as [data|] eqn:Henc.
    + assert (Hid : stable_hardware_id name
                    = Ok (1000 + Crc.crc32 data mod 2 ^ 31)).
      { rewrite (stable_hardware_id_encoded name data Henc).
        change 0x7FFFFFFF with (Z.ones 31). now rewrite Z.land_ones by lia. }
      split; [exact (utf8_encode_some name data Henc)|].
      split; [exact Hid|].
      intros now pkt Hname Hne. apply translate_packet_total.
      now rewrite (resolved_name_named pkt name Hname Hne).
    + split; [now apply utf8_encode_none|].
      unfold stable_hardware_id. now rewrite Henc.
  - apply stable_hardware_id_range.
  - apply translate_packet_deterministic.
Qed.

(** C8 (amended). Each coordinate is decided on its own: the latitude is
    the packet's [gps_lat] when that value is an int or a float, else
    the default latitude; the longitude is the packet's [gps_long] when
    that value is an int or a float, else the default longitude. *)
Theorem coordinates_fall_back_independently
    (now : Z) (pkt : gmap (list N) pyvalue) (s : sensor) (r : reading)
    (Hok : translate now pkt = Ok (s, r)) :
  let gps_lat := dict_get pkt (py "gps_lat") in
  let gps_long := dict_get pkt (py "gps_long") in
  gps_latitude s =
    (if is_int_or_float gps_lat then gps_lat else default_coord DEFAULT_LAT) /\
  gps_longitude s =
    (if is_int_or_float gps_long then gps_long else default_coord DEFAULT_LON).
Proof.
  apply translate_packet_ok in Hok as (_ & _ & _ & _ & Hlat & Hlon & _).
  now split.
Qed.

(** C10. The sensor record of every translated packet has a metadata
    mapping with exactly the keys "source" and "net"; "source" is the
    tag "radio" and "net" holds the packet's [net], [None] when the
    packet has none. *)
Theorem metadata_has_source_and_net
    (now : Z) (pkt : gmap (list N) pyvalue) (s : sensor) (r : reading)
    (Hok : translate now pkt = Ok (s, r)) :
  dom (metadata s) = ({[py "source"; py "net"]} : gset (list N)) /\
  metadata s !! py "source" = Some (PyStr (py "radio")) /\
  metadata s !! py "net" = Some (dict_get pkt (py "net")) /\
  (pkt !! py "net" = None -> metadata s !! py "net" = Some PyNone).
Proof.
  apply translate_packet_ok in Hok as (_ & _ & _ & _ & _ & _ & ->).
  assert (Hne : py "net" <> py "source") by discriminate.
  split; [|split; [|split]].
  - rewrite !dom_insert_L, dom_empty_L. set_solver.
  - rewrite lookup_insert_ne by exact Hne. apply lookup_insert_eq.
  - apply lookup_insert_eq.
  - intros Hnone. rewrite lookup_insert_eq. unfold dict_get. now rewrite Hnone.
Qed.

End WithEnvironment.

(** C7 (as stated): [stable_hardware_id] returns an identity for every
    name string.  The name made of the lone surrogate U+D800, which the
    JSON text "\ud800" decodes to, has no UTF-8 bytes:
    [name.encode("utf-8")] raises [UnicodeEncodeError] and no identity
    is returned. *)
Lemma stable_hardware_id_surrogate_counterexample :
  stable_hardware_id [0xD800%N] = Raise UnicodeEncodeError /\
  ~ (exists data, utf8_encode [0xD800%N] = Some data) /\
  ~ (exists h, stable_hardware_id [0xD800%N] = Ok h /\
               1000 <= h <= 1000 + 2 ^ 31 - 1).
Proof.
  split; [reflexivity|]. split.
  - intros (data & H). discriminate H.
  - intros (h & H & _). discriminate H.
Qed.

(** C8 (as stated): when either coordinate is missing, both fall back to
    the defaults.  A packet with [gps_lat = 45] and no [gps_long],
    translated under the defaults (10.0, 20.0), gets latitude 45 from
    the packet and longitude 20.0 from the defaults. *)
Lemma coords_all_or_nothing_counterexample :
  exists s r,
    translate_packet (Some float_10) (Some float_20) no_format 0 pkt_lat_only
      = Ok (s, r) /\
    gps_latitude s = PyInt 45 /\
    gps_longitude s = PyFloat float_20 /\
    ~ coords_all_or_nothing (Some float_10) (Some float_20) pkt_lat_only s.
Proof.
  eexists _, _. split; [reflexivity|].
  split; [reflexivity|]. split; [reflexivity|].
  unfold coords_all_or_nothing. vm_compute. intros [H _]. discriminate H.
Qed.

Lemma coordinates_fall_back_independently_witness :
  exists s r,
    translate_packet (Some float_10) (Some float_20) no_format 0 pkt_lat_only
      = Ok (s, r) /\
    gps_latitude s = PyInt 45 /\ gps_longitude s = PyFloat float_20.
Proof.
  eexists _, _. split; [reflexivity|].
  exact (coordinates_fall_back_independently (Some float_10) (Some float_20)
           no_format 0 pkt_lat_only _ _ eq_refl).
Defined.

Lemma metadata_has_source_and_net_witness :
  exists s r,
    translate_packet None None no_format 0 pkt_named_a = Ok (s, r) /\
    dom (metadata s) = ({[py "source"; py "net"]} : gset (list N)) /\
    metadata s !! py "source" = Some (PyStr (py "radio")) /\
    metadata s !! py "net" = Some PyNone.
Proof.
  eexists _, _. split; [reflexivity|].
  pose proof (metadata_has_source_and_net None None no_format 0 pkt_named_a
                _ _ eq_refl) as (Hdom & Hsrc & _ & Hnet).
  split; [exact Hdom|]. split; [exact Hsrc|].
  apply Hnet. reflexivity.
Defined.

End TranslatorFacts.

(* ================================================================== *)
(** * Properties of the packet parser *)
(* ================================================================== *)

Section ParserFacts.
Import PyStr Parser DecoderLimit.

(** Trimming removes Unicode white space, not only ASCII blanks. *)
Example strip_unicode :
  strip ([0xA0; 0x09]%N ++ py "{}" ++ [0x2003; 0x0A]%N) = py "{}".
Proof. reflexivity. Qed.

Example split1_first_only :
  split1 124%N (py "a|b|c") = [py "a"; py "b|c"].
Proof. reflexivity. Qed.

Example extract_legacy :
  _extract_json_text (py "ok seq=1 | {x} ") = Some (py "{x}").
Proof. reflexivity. Qed.

Example extract_comment : _extract_json_text (py "   # {x}") = None.
Proof. reflexivity. Qed.

(** ** Trimming *)

Lemma lstrip_decomp s : exists ws, spaces ws /\ s = ws ++ lstrip s.
Proof.
  induction s as [|c s (ws & Hws & IH)].
  - exists []. split; [constructor|reflexivity].
  - simpl. destruct (py_isspace c) eqn:Hc.
    + exists (c :: ws). split; [now constructor|]. simpl. now f_equal.
    + exists []. split; [constructor|reflexivity].
Qed.

Lemma lstrip_spaces ws s : spaces ws -> lstrip (ws ++ s) = lstrip s.
Proof. induction 1 as [|c ws Hc _ IH]; simpl; [reflexivity|now rewrite Hc]. Qed.

Lemma lstrip_all_spaces ws : spaces ws -> lstrip ws = [].
Proof.
  intros H. rewrite <- (app_nil_r ws). now rewrite lstrip_spaces.
Qed.

Lemma spaces_rev ws : spaces ws -> spaces (rev ws).
Proof. apply Forall_rev. Qed.

Lemma rstrip_decomp s : exists ws, spaces ws /\ s = rstrip s ++ ws.
Proof.
  destruct (lstrip_decomp (rev s)) as (ws & Hws & Hs).
  exists (rev ws). split; [now apply spaces_rev|].
  unfold rstrip. rewrite <- rev_app_distr, <- Hs. now rewrite rev_involutive.
Qed.

Lemma rstrip_spaces s ws : spaces ws -> rstrip (s ++ ws) = rstrip s.
Proof.
  intros H. unfold rstrip. rewrite rev_app_distr.
  now rewrite lstrip_spaces by now apply spaces_rev.
Qed.

Lemma strip_app_spaces s ws : spaces ws -> strip (s ++ ws) = strip s.
Proof.
  intros H. unfold strip. induction s as [|c s IH]; simpl.
  - now rewrite lstrip_all_spaces.
  - destruct (py_isspace c); [exact IH|].
    now rewrite app_comm_cons, rstrip_spaces.
Qed.

(** ** Cutting at a separator *)

Lemma snd_cut_cons sep c t :
  (c =? sep)%N = false -> snd (cut sep (c :: t)) = snd (cut sep t).
Proof. intros H. simpl. rewrite H. now destruct (cut sep t). Qed.

Lemma space_neq_sep sep c :
  py_isspace sep = false -> py_isspace c = true -> (c =? sep)%N = false.
Proof. intros Hs Hc. apply N.eqb_neq. intros ->. congruence. Qed.

Lemma cut_spaces_l sep ws s :
  py_isspace sep = false -> spaces ws ->
  snd (cut sep (ws ++ s)) = snd (cut sep s).
Proof.
  intros Hsep. induction 1 as [|c ws Hc _ IH]; [reflexivity|].
  rewrite <- app_comm_cons, snd_cut_cons; [exact IH|].
  now apply space_neq_sep.
Qed.

Lemma cut_spaces_r sep s ws :
  py_isspace sep = false -> spaces ws ->
  snd (cut sep (s ++ ws)) = (fun r => r ++ ws) <$> snd (cut sep s).
Proof.
  intros Hsep Hws. induction s as [|c s IH].
  - simpl. rewrite <- (app_nil_r ws). now rewrite cut_spaces_l.
  - destruct (c =? sep)%N eqn:Hc.
    + simpl. now rewrite Hc.
    + rewrite <- app_comm_cons, !snd_cut_cons by exact Hc. exact IH.
Qed.

(** The part after the first separator is the same, up to trimming,
    whether the line is trimmed before the cut or not. *)
Lemma cut_strip sep line :
  py_isspace sep = false ->
  match snd (cut sep (strip line)), snd (cut sep line) with
  | Some raw, Some rest => strip rest = strip raw
  | None, None => True
  | _, _ => False
  end.
Proof.
  intros Hsep.
  destruct (lstrip_decomp line) as (ws1 & Hws1 & Hl).
  destruct (rstrip_decomp (lstrip line)) as (ws2 & Hws2 & Hr).
  fold (strip line) in Hr.
  assert (Hcut : snd (cut sep line) =
                 (fun r => r ++ ws2) <$> snd (cut sep (strip line))).
  { transitivity (snd (cut sep (ws1 ++ lstrip line))); [now rewrite <- Hl|].
    rewrite cut_spaces_l by easy.
    transitivity (snd (cut sep (strip line ++ ws2))); [now rewrite <- Hr|].
    now apply cut_spaces_r. }
  rewrite Hcut.
  destruct (snd (cut sep (strip line))) as [raw|]; simpl; [|exact I].
  now apply strip_app_spaces.
Qed.

Lemma contains_char text sep :
  contains text [sep] = bool_decide (is_Some (snd (cut sep text))).
Proof.
  induction text as [|c t IH]; [reflexivity|].
  cbn [contains startswith]. fold (contains t [sep]).
  destruct (c =? sep)%N eqn:Hc.
  - simpl. rewrite Hc. reflexivity.
  - rewrite snd_cut_cons by exact Hc. now rewrite IH.
Qed.

Lemma getitem_split1 sep text :
  getitem (split1 sep text) 1 =
  match snd (cut sep text) with
  | Some raw => Ok raw
  | None => Raise IndexError
  end.
Proof. unfold split1. destruct (cut sep text) as [h [r|]]; reflexivity. Qed.

(** ** Extraction of the JSON text *)

(** The text [_extract_json_text] hands to the decoder, read off the
    untrimmed line. *)
Lemma _extract_json_text_eq line :
  _extract_json_text line =
  match strip line with
  | [] => None
  | c :: _ =>
      if (c =? 35)%N then None
      else if looks_like_object (strip line) then Some (strip line)
      else match after_first_pipe line with
           | Some rest =>
               if looks_like_object (strip rest) then Some (strip rest)
               else None
           | None => None
           end
  end.
Proof.
  unfold _extract_json_text, after_first_pipe. cbv zeta.
  pose proof (cut_strip 124%N line eq_refl) as Hcut.
  fold (looks_like_object (strip line)).
  destruct (strip line) as [|c t] eqn:Ht; [reflexivity|].
  rewrite bool_decide_eq_false_2 by discriminate.
  change (startswith (c :: t) (py "#")) with ((c =? 35)%N && true).
  rewrite andb_true_r, orb_false_l.
  destruct (c =? 35)%N; [reflexivity|].
  destruct (looks_like_object (c :: t)); [reflexivity|].
  change (py "|") with [124%N].
  rewrite contains_char, getitem_split1.
  destruct (snd (cut 124%N (c :: t))) as [raw|],
           (snd (cut 124%N line)) as [rest|]; try contradiction.
  - rewrite bool_decide_eq_true_2 by eauto. rewrite Hcut.
    reflexivity.
  - rewrite bool_decide_eq_false_2; [reflexivity|]. intros [? [=]].
Qed.

Lemma looks_like_object_nonempty t : looks_like_object t = true -> t <> [].
Proof. intros H ->. discriminate H. Qed.

(** The candidate text, when there is one, has the form of an object. *)
Lemma _extract_json_text_object line t :
  _extract_json_text line = Some t -> looks_like_object t = true.
Proof.
  rewrite _extract_json_text_eq.
  destruct (strip line) as [|c s] eqn:Hs; [discriminate|].
  destruct (c =? 35)%N; [discriminate|].
  destruct (looks_like_object (c :: s)) eqn:Hobj; [now intros [= <-]|].
  destruct (after_first_pipe line) as [rest|]; [|discriminate].
  destruct (looks_like_object (strip rest)) eqn:Hpart; [|discriminate].
  now intros [= <-].
Qed.

(** The rules decode the candidate text and keep objects. *)
Lemma parse_rules_eq json_loads line :
  parse_rules json_loads line =
  match _extract_json_text line with
  | Some t => decodes_to_object json_loads t
  | None => None
  end.
Proof.
  unfold parse_rules. rewrite _extract_json_text_eq. cbv zeta.
  destruct (strip line) as [|c s]; [reflexivity|].
  destruct (c =? 35)%N; [reflexivity|].
  destruct (looks_like_object (c :: s)); [reflexivity|].
  destruct (after_first_pipe line) as [rest|]; [|reflexivity].
  now destruct (looks_like_object (strip rest)).
Qed.

(** The parser hands the candidate text to the decoder and lets every
    exception but [JSONDecodeError] through. *)
Lemma parse_line_to_packet_eq json_loads line :
  parse_line_to_packet json_loads line =
  match _extract_json_text line with
  | None => Ok None
  | Some t =>
      match json_loads t with
      | Raise JSONDecodeError => Ok None
      | Raise e => Raise e
      | Ok (PyDict obj) => Ok (Some obj)
      | Ok _ => Ok None
      end
  end.
Proof.
  unfold parse_line_to_packet.
  destruct (_extract_json_text line) as [t|] eqn:Ht; [|reflexivity].
  apply _extract_json_text_object, looks_like_object_nonempty in Ht.
  destruct t; [now contradict Ht|reflexivity].
Qed.

Lemma parse_line_to_packet_propagates json_loads line t e :
  _extract_json_text line = Some t ->
  json_loads t = Raise e -> e <> JSONDecodeError ->
  parse_line_to_packet json_loads line = Raise e.
Proof.
  intros Ht Hj He. rewrite parse_line_to_packet_eq, Ht, Hj.
  destruct e; [now contradict He|reflexivity..].
Qed.

(** C5. By the rules a candidate text that fails to decode gives none.
    [parse_line_to_packet] returns what the rules say on every line
    except those whose candidate text makes the decoder raise an
    exception other than [JSONDecodeError]: there the rules say none and
    the parser raises that exception.  The line
    ok seq=1 | {"a":11...1}  with 4301 digits is such a line: the
    decoder raises [ValueError] and so does the parser.  Of the sample
    lines, the one with name "a" and battery_v 3.7 and the legacy line
    give the decoded packet when the decoder decodes their text to it,
    and  # debug,  {"broken"  and the empty line give none with every
    decoder. *)
Theorem parse_line_follows_rules_or_raises :
  (forall json_loads line,
     parse_line_to_packet json_loads line = Ok (parse_rules json_loads line) \/
     exists t e,
       _extract_json_text line = Some t /\
       json_loads t = Raise e /\ e <> JSONDecodeError /\
       parse_rules json_loads line = None /\
       parse_line_to_packet json_loads line = Raise e) /\
  (parse_rules int_limit_json_loads line_legacy_huge_int = None /\
   parse_line_to_packet int_limit_json_loads line_legacy_huge_int
     = Raise (OtherException "ValueError")) /\
  (forall json_loads,
     (json_loads line_name_battery = Ok (PyDict pkt_name_battery) ->
      parse_line_to_packet json_loads line_name_battery
        = Ok (Some pkt_name_battery) /\
      pkt_name_battery !! py "name" = Some (PyStr (py "a")) /\
      pkt_name_battery !! py "battery_v" = Some (PyFloat float_3_7)) /\
     parse_line_to_packet json_loads line_debug = Ok None /\
     (json_loads text_name_only = Ok (PyDict pkt_name_only) ->
      parse_line_to_packet json_loads line_legacy = Ok (Some pkt_name_only)) /\
     parse_line_to_packet json_loads line_broken = Ok None /\
     parse_line_to_packet json_loads [] = Ok None).
Proof.
  split; [|split].
  - intros json_loads line.
    rewrite parse_line_to_packet_eq, parse_rules_eq.
    destruct (_extract_json_text line) as [t|]; [|now left].
    unfold decodes_to_object.
    destruct (json_loads t) as [v|e] eqn:Hj.
    + left. now destruct v.
    + destruct e; [now left|right; exists t; eexists;
                            (split; [reflexivity|]); (split; [exact Hj|]);
                            (split; [discriminate|]); split; reflexivity..].
  - split.
    + rewrite parse_rules_eq.
      assert (Ht : _extract_json_text line_legacy_huge_int = Some text_huge_int)
        by (vm_compute; reflexivity).
      rewrite Ht. unfold decodes_to_object.
      assert (Hj : int_limit_json_loads text_huge_int
                   = Raise (OtherException "ValueError"))
        by (vm_compute; reflexivity).
      now rewrite Hj.
    + apply (parse_line_to_packet_propagates _ _ text_huge_int);
        [vm_compute; reflexivity|vm_compute; reflexivity|discriminate].
  - intros json_loads. split; [|split; [|split; [|split]]].
    + intros Hdoc. split; [|split; reflexivity].
      rewrite parse_line_to_packet_eq.
      change (_extract_json_text line_name_battery)
        with (Some line_name_battery).
      cbv beta iota. now rewrite Hdoc.
    + reflexivity.
    + intros Hdoc. rewrite parse_line_to_packet_eq.
      change (_extract_json_text line_legacy) with (Some text_name_only).
      cbv beta iota. now rewrite Hdoc.
    + reflexivity.
    + reflexivity.
Qed.

(** C6. [parse_line_to_packet] catches [json.JSONDecodeError] and
    nothing else.  On the line  {"a":11...1}  with 4301 digits the
    decoder raises [ValueError] and the parser raises it too, instead of
    returning a packet or none.  For every decoder and line, an
    exception of the decoder on the candidate text that is not a
    [JSONDecodeError] leaves the parser, and the parser raises nothing
    else. *)
Theorem parse_line_to_packet_raises_decoder_error :
  parse_line_to_packet int_limit_json_loads line_huge_int
    = Raise (OtherException "ValueError") /\
  ~ (parse_line_to_packet int_limit_json_loads line_huge_int = Ok None \/
     exists pkt,
       parse_line_to_packet int_limit_json_loads line_huge_int = Ok (Some pkt)) /\
  (forall json_loads line t e,
     _extract_json_text line = Some t ->
     json_loads t = Raise e -> e <> JSONDecodeError ->
     parse_line_to_packet json_loads line = Raise e) /\
  (forall json_loads line e,
     parse_line_to_packet json_loads line = Raise e ->
     e <> JSONDecodeError /\
     exists t, _extract_json_text line = Some t /\ json_loads t = Raise e).
Proof.
  assert (Hraise : parse_line_to_packet int_limit_json_loads line_huge_int
                   = Raise (OtherException "ValueError")).
  { apply (parse_line_to_packet_propagates _ _ text_huge_int);
      [vm_compute; reflexivity|vm_compute; reflexivity|discriminate]. }
  split; [exact Hraise|]. split; [|split].
  - rewrite Hraise. intros [H|(pkt & H)]; discriminate H.
  - exact parse_line_to_packet_propagates.
  - intros json_loads line e. rewrite parse_line_to_packet_eq.
    destruct (_extract_json_text line) as [t|]; [|discriminate].
    destruct (json_loads t) as [v|e'] eqn:Hj.
    + destruct v; discriminate.
    + destruct e'; [discriminate|intros [= <-]; split; [discriminate|eauto]..].
Qed.

End ParserFacts.

(* ================================================================== *)
(** * Further properties of the frame codec and the password *)
(* ================================================================== *)

Section FrameMore.
Import Frame PyStr Password.

(** The two password bytes of a frame spell the low 16 bits of the
    password, high byte first. *)
Lemma password_bytes p :
  256 * Z.land (Z.shiftr p 8) 0xFF + Z.land p 0xFF = p mod 65536.
Proof.
  change 0xFF with (Z.ones 8). rewrite !Z.land_ones by lia.
  rewrite Z.shiftr_div_pow2 by lia.
  change (2 ^ 8) with 256. Z.div_mod_to_equations. lia.
Qed.

Lemma land_hi_mod p :
  Z.land (Z.shiftr (p mod 65536) 8) 0xFF = Z.land (Z.shiftr p 8) 0xFF.
Proof.
  change 0xFF with (Z.ones 8). rewrite !Z.land_ones by lia.
  rewrite !Z.shiftr_div_pow2 by lia.
  change (2 ^ 8) with 256. Z.div_mod_to_equations. lia.
Qed.

Lemma land_lo_mod p : Z.land (p mod 65536) 0xFF = Z.land p 0xFF.
Proof.
  change 0xFF with (Z.ones 8). rewrite !Z.land_ones by lia.
  change (2 ^ 8) with 256. Z.div_mod_to_equations. lia.
Qed.

Lemma header_of_mod p opcode :
  header_of (p mod 65536) opcode = header_of p opcode.
Proof. unfold header_of. now rewrite land_hi_mod, land_lo_mod. Qed.

Lemma _frame_opcode_error password opcode content :
  ~ 0 <= opcode < 256 -> _frame password opcode content = None.
Proof.
  intros Hop.
  assert (Hf : is_byte opcode = false).
  { apply not_true_is_false. now rewrite is_byte_spec. }
  unfold _frame, byte_seq. cbn [forallb]. rewrite Hf.
  now rewrite andb_false_l, !andb_false_r.
Qed.

(** X1. [_frame] accepts every integer as password and uses its low 16
    bits only; on a byte-valued content it fails exactly when the
    opcode is outside [range(256)]. *)
Theorem frame_password_low16 (password opcode : Z) (content : list Z)
    (Hbytes : Forall (fun b => 0 <= b < 256) content) :
  _frame password opcode content = _frame (password mod 65536) opcode content /\
  (_frame password opcode content = None <-> ~ 0 <= opcode < 256).
Proof.
  destruct (decide (0 <= opcode < 256)) as [Hop|Hop].
  - rewrite !_frame_eq by easy. rewrite header_of_mod.
    split; [reflexivity|]. split; [discriminate|tauto].
  - rewrite !_frame_opcode_error by easy. tauto.
Qed.

Lemma frame_password_low16_witness :
  _frame (-1) 0x01 [0x01] = _frame ((-1) mod 65536) 0x01 [0x01] /\
  (_frame (-1) 0x01 [0x01] = None <-> ~ 0 <= 0x01 < 256).
Proof.
  apply (frame_password_low16 (-1) 0x01 [0x01]).
  repeat constructor; lia.
Defined.

(** X2. A frame determines the command it was built from: two calls of
    [_frame] that return the same bytes had the same opcode, the same
    content and passwords with the same low 16 bits. *)
Theorem frame_injective (p1 p2 o1 o2 : Z) (c1 c2 f : list Z)
    (H1 : _frame p1 o1 c1 = Some f) (H2 : _frame p2 o2 c2 = Some f) :
  p1 mod 65536 = p2 mod 65536 /\ o1 = o2 /\ c1 = c2.
Proof.
  unfold _frame in H1, H2.
  destruct (byte_seq [0xA1; _; _; o1]) as [h1|] eqn:Hh1; [|discriminate].
  destruct (byte_seq [0xA1; _; _; o2]) as [h2|] eqn:Hh2; [|discriminate].
  cbv zeta in H1, H2.
  destruct (byte_seq [xor_loop (h1 ++ c1); _]) as [t1|] eqn:Ht1; [|discriminate].
  destruct (byte_seq [xor_loop (h2 ++ c2); _]) as [t2|] eqn:Ht2; [|discriminate].
  unfold byte_seq in Hh1, Hh2, Ht1, Ht2.
  destruct (forallb is_byte _) in Hh1; [|discriminate].
  destruct (forallb is_byte _) in Hh2; [|discriminate].
  destruct (forallb is_byte _) in Ht1; [|discriminate].
  destruct (forallb is_byte _) in Ht2; [|discriminate].
  injection Hh1 as <-. injection Hh2 as <-.
  injection Ht1 as <-. injection Ht2 as <-.
  injection H1 as H1. injection H2 as H2. rewrite <- H2 in H1. clear H2.
  simpl in H1. injection H1 as Hhi Hlo Hop Hrest.
  rewrite <- !password_bytes, Hhi, Hlo.
  split; [reflexivity|]. split; [exact Hop|].
  apply (f_equal (@rev Z)) in Hrest. rewrite !rev_app_distr in Hrest.
  simpl in Hrest. injection Hrest as _ Hrest.
  apply (f_equal (@rev Z)) in Hrest. now rewrite !rev_involutive in Hrest.
Qed.

Lemma frame_injective_witness :
  0x04D2 mod 65536 = (0x04D2 + 65536) mod 65536 /\ 0x01 = 0x01 /\ [0x01] = [0x01].
Proof.
  apply (frame_injective 0x04D2 (0x04D2 + 65536) 0x01 0x01 [0x01] [0x01]
           [0xA1; 0x04; 0xD2; 0x01; 0x01; 0x77; 0xAA]); reflexivity.
Defined.

Lemma lxor_cancel_l a x y : Z.lxor a x = Z.lxor a y -> x = y.
Proof.
  intros H. apply (f_equal (Z.lxor a)) in H.
  now rewrite <- !Z.lxor_assoc, Z.lxor_nilpotent, !Z.lxor_0_l in H.
Qed.

(** X3. For every password and every channel byte the ON and OFF
    commands are both built, are seven bytes long and differ in exactly
    two positions: the opcode (index 3) and the checksum (index 5). *)
Theorem on_off_frames_differ (password channel : Z)
    (Hch : 0 <= channel < 256) :
  exists f_on f_off,
    _on_now password channel = Some f_on /\
    _off_now password channel = Some f_off /\
    length f_on = 7%nat /\ length f_off = 7%nat /\
    f_on !! 3%nat = Some 0x01 /\ f_off !! 3%nat = Some 0x02 /\
    f_on !! 5%nat <> f_off !! 5%nat /\
    (forall i, i <> 3%nat -> i <> 5%nat -> f_on !! i = f_off !! i).
Proof.
  unfold _on_now, _off_now.
  rewrite byte_seq_ok by (repeat constructor; lia).
  rewrite !_frame_eq by (try lia; repeat constructor; lia).
  eexists _, _. split; [reflexivity|]. split; [reflexivity|].
  split; [reflexivity|]. split; [reflexivity|].
  split; [reflexivity|]. split; [reflexivity|].
  split.
  - simpl. intros [= H].
    do 3 apply lxor_cancel_l in H.
    rewrite (Z.lxor_comm 1), (Z.lxor_comm 2) in H.
    apply lxor_cancel_l in H. discriminate H.
  - intros [|[|[|[|[|[|[|i]]]]]]] H3 H5; try reflexivity; contradiction.
Qed.

Lemma on_off_frames_differ_witness :
  exists f_on f_off,
    _on_now 0x04D2 0x01 = Some f_on /\
    _off_now 0x04D2 0x01 = Some f_off /\
    length f_on = 7%nat /\ length f_off = 7%nat /\
    f_on !! 3%nat = Some 0x01 /\ f_off !! 3%nat = Some 0x02 /\
    f_on !! 5%nat <> f_off !! 5%nat /\
    (forall i, i <> 3%nat -> i <> 5%nat -> f_on !! i = f_off !! i).
Proof. apply (on_off_frames_differ 0x04D2 0x01). lia. Defined.

Section WithBuiltins.
Variable py_int : list N -> Z -> option Z.
Variable py_lower : list N -> list N.

Lemma land_16_range n : 0 <= Z.land n 0xFFFF <= 0xFFFF.
Proof.
  change 0xFFFF with (Z.ones 16) at 1 2. rewrite Z.land_ones by lia.
  pose proof (Z.mod_pos_bound n (2 ^ 16) ltac:(lia)). lia.
Qed.

Lemma _parse_pwd_range env_val :
  0 <= _parse_pwd py_int py_lower env_val <= 0xFFFF.
Proof.
  unfold _parse_pwd. destruct env_val as [[|c s]|]; try lia.
  destruct (startswith _ _);
    [destruct (py_int (c :: s) 16)|destruct (py_int (c :: s) 10)];
    simpl; try lia; apply land_16_range.
Qed.

(** X4. Whatever the environment holds and however [int] and [lower]
    behave, the parsed password fits the 16-bit field of the frame, the
    two source files parse it alike, an unset or empty variable gives
    1234, and the password bytes of the ON frame built with it spell
    exactly the parsed password, high byte first. *)
Theorem parse_pwd_fits_frame (env_val : option (list N)) :
  let pwd := _parse_pwd py_int py_lower env_val in
  0 <= pwd <= 0xFFFF /\
  _parse_pwd_test py_int py_lower env_val = pwd /\
  _parse_pwd py_int py_lower None = 1234 /\
  _parse_pwd py_int py_lower (Some []) = 1234 /\
  exists f hi lo,
    _on_now pwd 0x01 = Some f /\ on_now_frame pwd = Some f /\
    f !! 1%nat = Some hi /\ f !! 2%nat = Some lo /\ 256 * hi + lo = pwd.
Proof.
  intros pwd. pose proof (_parse_pwd_range env_val) as Hr. fold pwd in Hr.
  split; [exact Hr|]. split; [|split; [reflexivity|split; [reflexivity|]]].
  - unfold pwd, _parse_pwd, _parse_pwd_test.
    destruct env_val as [[|c s]|]; try reflexivity.
    destruct (startswith _ _);
      [destruct (py_int (c :: s) 16)|destruct (py_int (c :: s) 10)];
      reflexivity.
  - unfold _on_now, on_now_frame, CHANNEL.
    rewrite byte_seq_ok by (repeat constructor; lia).
    rewrite build_frame_eq by (try lia; repeat constructor; lia).
    rewrite _frame_eq by (try lia; repeat constructor; lia).
    eexists _, _, _. split; [reflexivity|]. split; [reflexivity|].
    split; [reflexivity|]. split; [reflexivity|].
    rewrite password_bytes. apply Z.mod_small. lia.
Qed.

End WithBuiltins.

End FrameMore.
(* ================================================================== *)
(** * Further properties of the delivery queue *)
(* ================================================================== *)

Section QueueMore.
Import Queue.

(** X5. A batch size of zero or less takes nothing: [dequeue_batch]
    returns the empty list, the queue is unchanged, and a tick neither
    flushes nor changes the queue, whatever the database would do. *)
Theorem nonpositive_batch_size_takes_nothing {A : Type} (q : list A) (n : Z)
    (Hn : n <= 0) :
  dequeue_batch q n = ([], q) /\
  forall flush_queue arrivals, flush_tick flush_queue n arrivals q = q.
Proof.
  assert (Hd : dequeue_batch q n = ([], q)).
  { rewrite dequeue_batch_eq. replace (Z.to_nat n) with 0%nat by lia.
    now rewrite take_0, drop_0. }
  split; [exact Hd|]. intros f arrivals. unfold flush_tick. now rewrite Hd.
Qed.

Lemma nonpositive_batch_size_takes_nothing_witness :
  dequeue_batch [1; 2; 3] 0 = ([], [1; 2; 3]) /\
  forall flush_queue arrivals, flush_tick flush_queue 0 arrivals [1; 2; 3] = [1; 2; 3].
Proof. apply (nonpositive_batch_size_takes_nothing [1; 2; 3] 0). lia. Defined.

(** X6. Two batches taken one after the other are the two halves of
    the one batch of the summed size: nothing is skipped or repeated
    between consecutive calls. *)
Theorem dequeue_batch_twice {A : Type} (q : list A) (n m : Z)
    (Hn : 0 <= n) (Hm : 0 <= m) :
  let '(b1, r1) := dequeue_batch q n in
  let '(b2, r2) := dequeue_batch r1 m in
  dequeue_batch q (n + m) = (b1 ++ b2, r2).
Proof.
  rewrite !dequeue_batch_eq.
  rewrite Z2Nat.inj_add by lia.
  now rewrite take_take_drop, drop_drop.
Qed.

Lemma dequeue_batch_twice_witness :
  let '(b1, r1) := dequeue_batch [1; 2; 3; 4] 1 in
  let '(b2, r2) := dequeue_batch r1 2 in
  dequeue_batch [1; 2; 3; 4] (1 + 2) = (b1 ++ b2, r2).
Proof. apply (dequeue_batch_twice [1; 2; 3; 4] 1 2); lia. Defined.

(** X7. Enqueue then dequeue is a round trip: after the items are
    enqueued one by one on an empty queue, [len] reports their number
    and a batch at least that large returns exactly them, in the order
    they were enqueued, leaving a queue of length 0. *)
Theorem enqueue_dequeue_round_trip {A : Type} (items : list A) (n : Z)
    (Hn : Z.of_nat (length items) <= n) :
  let q := fold_left enqueue items [] in
  len q = Z.of_nat (length items) /\
  dequeue_batch q n = (items, []) /\
  len (snd (dequeue_batch q n)) = 0.
Proof.
  cbv zeta. rewrite enqueue_all, app_nil_l, dequeue_batch_eq.
  rewrite take_ge, drop_ge by lia. now repeat split.
Qed.

Lemma enqueue_dequeue_round_trip_witness :
  let q := fold_left enqueue [7; 8; 9] [] in
  len q = Z.of_nat (length [7; 8; 9]) /\
  dequeue_batch q 5000 = ([7; 8; 9], []) /\
  len (snd (dequeue_batch q 5000)) = 0.
Proof. apply (enqueue_dequeue_round_trip [7; 8; 9] 5000). simpl. lia. Defined.

Lemma flush_tick_ok_quiet {A : Type} (flush_queue : list A -> result Z)
    (n : Z) (q : list A) (count : Z) :
  flush_queue (take (Z.to_nat n) q) = Ok count ->
  flush_tick flush_queue n [] q = drop (Z.to_nat n) q.
Proof.
  intros Hflush. unfold flush_tick. rewrite dequeue_batch_eq.
  destruct (take (Z.to_nat n) q) eqn:Hb; [reflexivity|]. now rewrite Hflush.
Qed.

(** X8. A tick whose flush succeeds removes exactly the flushed batch:
    the queue afterwards is the unflushed remainder, in its old order,
    followed by the items that arrived meanwhile. *)
Theorem flush_tick_success_removes_batch {A : Type}
    (flush_queue : list A -> result Z) (n : Z) (arrivals q : list A) (count : Z)
    (Hn : 0 <= n)
    (Hflush : flush_queue (take (Z.to_nat n) q) = Ok count) :
  flush_tick flush_queue n [] q = drop (Z.to_nat n) q /\
  (take (Z.to_nat n) q <> [] ->
   flush_tick flush_queue n arrivals q = drop (Z.to_nat n) q ++ arrivals) /\
  len (flush_tick flush_queue n [] q) = Z.max 0 (len q - n).
Proof.
  pose proof (flush_tick_ok_quiet flush_queue n q count Hflush) as H0.
  split; [exact H0|]. split.
  - intros Hne. unfold flush_tick. rewrite dequeue_batch_eq.
    destruct (take (Z.to_nat n) q) eqn:Hb; [easy|].
    now rewrite Hflush, enqueue_all.
  - rewrite H0. unfold len. rewrite length_drop. lia.
Qed.

Lemma flush_tick_success_removes_batch_witness :
  flush_tick (fun items => Ok (Z.of_nat (length items))) 2 [] [1; 2; 3] = [3] /\
  (take (Z.to_nat 2) [1; 2; 3] <> [] ->
   flush_tick (fun items => Ok (Z.of_nat (length items))) 2 [4] [1; 2; 3]
     = [3] ++ [4]) /\
  len (flush_tick (fun items => Ok (Z.of_nat (length items))) 2 [] [1; 2; 3])
    = Z.max 0 (len [1; 2; 3] - 2).
Proof.
  apply (flush_tick_success_removes_batch
           (fun items => Ok (Z.of_nat (length items))) 2 [4] [1; 2; 3] 2).
  - lia.
  - reflexivity.
Defined.

(** X9. A tick whose flush raises loses and duplicates nothing: the
    queue afterwards holds exactly the items it held before plus the
    arrivals, the same number of them, possibly in another order. *)
Theorem flush_tick_failure_keeps_items {A : Type}
    (flush_queue : list A -> result Z) (n : Z) (arrivals q : list A) (e : exn)
    (Hbatch : take (Z.to_nat n) q <> [])
    (Hflush : flush_queue (take (Z.to_nat n) q) = Raise e) :
  flush_tick flush_queue n arrivals q ≡ₚ q ++ arrivals /\
  len (flush_tick flush_queue n arrivals q) = len q + len arrivals.
Proof.
  pose proof (flush_tick_failed_perm flush_queue n arrivals q e Hbatch Hflush)
    as Hp.
  split; [exact Hp|]. unfold len. rewrite (Permutation_length Hp), length_app.
  lia.
Qed.

Lemma flush_tick_failure_keeps_items_witness :
  flush_tick (fun _ => Raise (OtherException "OperationalError")) 2 [4] [1; 2; 3]
    ≡ₚ [1; 2; 3] ++ [4] /\
  len (flush_tick (fun _ => Raise (OtherException "OperationalError"))
         2 [4] [1; 2; 3]) = len [1; 2; 3] + len [4].
Proof.
  apply (flush_tick_failure_keeps_items
           (fun _ => Raise (OtherException "OperationalError")) 2 [4] [1; 2; 3]
           (OtherException "OperationalError")).
  - discriminate.
  - reflexivity.
Defined.

(** X10. With a database that accepts every batch and no new arrivals,
    [k] ticks remove the [k * batch_size] oldest items; the queue is
    empty as soon as [k * batch_size] reaches its length. *)
Theorem ticks_drain_queue {A : Type}
    (flush_queue : list A -> result Z) (n : Z) (q : list A) (k : nat)
    (Hn : 0 <= n)
    (Hflush : forall items, exists count, flush_queue items = Ok count) :
  Nat.iter k (flush_tick flush_queue n []) q = drop (k * Z.to_nat n) q /\
  (len q <= Z.of_nat k * n -> Nat.iter k (flush_tick flush_queue n []) q = []).
Proof.
  assert (Hk : Nat.iter k (flush_tick flush_queue n []) q
               = drop (k * Z.to_nat n) q).
  { induction k as [|k IH]; [reflexivity|].
    rewrite Nat.iter_succ, IH.
    destruct (Hflush (take (Z.to_nat n) (drop (k * Z.to_nat n) q)))
      as [count Hc].
    rewrite (flush_tick_ok_quiet flush_queue n _ count Hc).
    rewrite drop_drop. f_equal. lia. }
  split; [exact Hk|]. intros Hlen. rewrite Hk. apply drop_ge.
  unfold len in Hlen. nia.
Qed.

Lemma ticks_drain_queue_witness :
  Nat.iter 2 (flush_tick (fun items => Ok (Z.of_nat (length items))) 2 [])
    [1; 2; 3] = drop (2 * Z.to_nat 2) [1; 2; 3] /\
  (len [1; 2; 3] <= Z.of_nat 2 * 2 ->
   Nat.iter 2 (flush_tick (fun items => Ok (Z.of_nat (length items))) 2 [])
     [1; 2; 3] = []).
Proof.
  apply (ticks_drain_queue (fun items => Ok (Z.of_nat (length items))) 2
           [1; 2; 3] 2).
  - lia.
  - intros items. eexists. reflexivity.
Defined.

End QueueMore.

(* ================================================================== *)
(** * Further properties of the packet parser *)
(* ================================================================== *)

Section ParserMore.
Import PyStr Parser Shape.

Lemma lstrip_app a b :
  lstrip (a ++ b) = match lstrip a with [] => lstrip b | t => t ++ b end.
Proof.
  induction a as [|c a IH]; [reflexivity|].
  simpl. destruct (py_isspace c); [exact IH|reflexivity].
Qed.

(** Trimming on the right, read from the left. *)
Lemma rstrip_cons c s :
  rstrip (c :: s) =
  match rstrip s with
  | [] => if py_isspace c then [] else [c]
  | t => c :: t
  end.
Proof.
  unfold rstrip. simpl rev. rewrite lstrip_app.
  destruct (lstrip (rev s)) as [|x t] eqn:Hl.
  - simpl. now destruct (py_isspace c).
  - rewrite rev_app_distr. simpl. destruct (rev t ++ [x]) eqn:Hr; [|reflexivity].
    now destruct (rev t).
Qed.

Lemma lstrip_rstrip s : lstrip (rstrip s) = rstrip (lstrip s).
Proof.
  induction s as [|c s IH]; [reflexivity|].
  rewrite rstrip_cons. simpl lstrip at 2.
  destruct (py_isspace c) eqn:Hc.
  - destruct (rstrip s) as [|x t] eqn:Hr.
    + now rewrite <- IH.
    + simpl. rewrite Hc. now rewrite <- IH.
  - rewrite rstrip_cons.
    destruct (rstrip s) as [|x t]; simpl; now rewrite Hc.
Qed.

Lemma lstrip_idem s : lstrip (lstrip s) = lstrip s.
Proof.
  induction s as [|c s IH]; [reflexivity|].
  simpl. destruct (py_isspace c) eqn:Hc; [exact IH|]. simpl. now rewrite Hc.
Qed.

Lemma rstrip_idem s : rstrip (rstrip s) = rstrip s.
Proof. unfold rstrip. now rewrite rev_involutive, lstrip_idem. Qed.

Lemma strip_idem s : strip (strip s) = strip s.
Proof.
  unfold strip. now rewrite <- lstrip_rstrip, rstrip_idem, lstrip_rstrip,
    lstrip_idem.
Qed.

Lemma strip_slice s : slice_of (strip s) s.
Proof.
  destruct (lstrip_decomp s) as (ws1 & _ & H1).
  destruct (rstrip_decomp (lstrip s)) as (ws2 & _ & H2).
  exists ws1, ws2. fold (strip s) in H2. now rewrite <- H2.
Qed.

Lemma slice_of_trans a b c : slice_of a b -> slice_of b c -> slice_of a c.
Proof.
  intros (x1 & y1 & ->) (x2 & y2 & ->).
  exists (x2 ++ x1), (y1 ++ y2). now rewrite <- !app_assoc.
Qed.

Lemma cut_split sep text h raw :
  cut sep text = (h, Some raw) -> text = h ++ sep :: raw.
Proof.
  revert h. induction text as [|c t IH]; intros h; simpl; [discriminate|].
  destruct (c =? sep)%N eqn:Hc.
  - intros [= <- <-]. apply N.eqb_eq in Hc. now subst.
  - destruct (cut sep t) as [h' r]. intros [= <- ->].
    simpl. f_equal. now apply IH.
Qed.

Lemma strip_spaces_around ws1 s ws2 :
  spaces ws1 -> spaces ws2 -> strip (ws1 ++ s ++ ws2) = strip s.
Proof.
  intros H1 H2. rewrite app_assoc, strip_app_spaces by exact H2.
  unfold strip. now rewrite lstrip_spaces.
Qed.

(** X11. What the parser hands to the JSON decoder is always a trimmed,
    non-empty slice of the input line that starts with '{' and ends
    with '}'. *)
Theorem extracted_text_is_trimmed_object_slice (line t : list N)
    (Hext : _extract_json_text line = Some t) :
  looks_like_object t = true /\ t <> [] /\ strip t = t /\ slice_of t line.
Proof.
  rewrite _extract_json_text_eq in Hext.
  destruct (strip line) as [|c s] eqn:Hs; [discriminate|].
  destruct (c =? 35)%N; [discriminate|].
  destruct (looks_like_object (c :: s)) eqn:Hobj.
  - injection Hext as <-. rewrite <- Hs.
    split; [now rewrite Hs|]. split; [now rewrite Hs|].
    split; [apply strip_idem|apply strip_slice].
  - unfold after_first_pipe in Hext.
    destruct (cut 124%N line) as [h [rest|]] eqn:Hcut; simpl in Hext;
      [|discriminate].
    destruct (looks_like_object (strip rest)) eqn:Hpart; [|discriminate].
    injection Hext as <-.
    split; [exact Hpart|]. split; [now apply looks_like_object_nonempty|].
    split; [apply strip_idem|].
    apply (slice_of_trans _ rest); [apply strip_slice|].
    exists (h ++ [124%N]), []. rewrite app_nil_r, <- app_assoc.
    now apply cut_split.
Qed.

Lemma extracted_text_is_trimmed_object_slice_witness :
  looks_like_object (py "{x}") = true /\ py "{x}" <> [] /\
  strip (py "{x}") = py "{x}" /\ slice_of (py "{x}") (py "ok seq=1 | {x} ").
Proof.
  apply (extracted_text_is_trimmed_object_slice (py "ok seq=1 | {x} ") (py "{x}")).
  reflexivity.
Defined.

(** X12. White space in front of and behind a line never matters: the
    parser returns the same outcome for the padded line (for instance
    one that still carries its line terminator) as for the line. *)
Theorem parser_ignores_surrounding_space
    (json_loads : list N -> result pyvalue) (ws1 line ws2 : list N)
    (H1 : spaces ws1) (H2 : spaces ws2) :
  _extract_json_text (ws1 ++ line ++ ws2) = _extract_json_text line /\
  parse_line_to_packet json_loads (ws1 ++ line ++ ws2)
    = parse_line_to_packet json_loads line.
Proof.
  assert (He : _extract_json_text (ws1 ++ line ++ ws2)
               = _extract_json_text line).
  { unfold _extract_json_text. now rewrite strip_spaces_around. }
  split; [exact He|]. unfold parse_line_to_packet. now rewrite He.
Qed.

Lemma parser_ignores_surrounding_space_witness :
  _extract_json_text (py "  " ++ text_name_only ++ [13; 10]%N)
    = _extract_json_text text_name_only /\
  parse_line_to_packet sample_json_loads (py "  " ++ text_name_only ++ [13; 10]%N)
    = parse_line_to_packet sample_json_loads text_name_only.
Proof.
  apply (parser_ignores_surrounding_space sample_json_loads
           (py "  ") text_name_only [13; 10]%N).
  - repeat constructor.
  - repeat constructor.
Defined.

End ParserMore.
(* ================================================================== *)
(** * Further properties of identity derivation and translation *)
(* ================================================================== *)

Section TranslatorMore.
Import PyStr Translator Shape.

Section WithEnvironment.
Variables DEFAULT_LAT DEFAULT_LON : option spec_float.
Variable py_format : pyvalue -> list N.

Lemma resolved_name_nonempty pkt : resolved_name py_format pkt <> [].
Proof.
  unfold resolved_name. cbv zeta.
  destruct (dict_get pkt (py "name")) as [| | | |[|c s]| |]; discriminate.
Qed.

(** X13. [translate_packet] raises nothing but [UnicodeEncodeError],
    and exactly when the name it settles on (the packet's own, or the
    one made from [sensor_id]) contains a code point that is not a
    Unicode scalar value, such as a lone surrogate; on every other
    packet it returns. *)
Theorem translate_packet_raises_iff (now : Z) (pkt : gmap (list N) pyvalue) :
  (forall e,
     translate_packet DEFAULT_LAT DEFAULT_LON py_format now pkt = Raise e <->
     e = UnicodeEncodeError /\
     Exists (fun c => is_scalar_value c = false) (resolved_name py_format pkt)) /\
  ((exists s r,
      translate_packet DEFAULT_LAT DEFAULT_LON py_format now pkt = Ok (s, r)) <->
   Forall (fun c => is_scalar_value c = true) (resolved_name py_format pkt)).
Proof.
  pose proof (utf8_encode_none (resolved_name py_format pkt)) as Hnone.
  destruct (stable_hardware_id (resolved_name py_format pkt)) as [h|e0] eqn:Hid.
  - destruct (translate_packet_total DEFAULT_LAT DEFAULT_LON py_format
                now pkt h Hid) as (s & r & Hok & _).
    assert (Henc : utf8_encode (resolved_name py_format pkt) <> None).
    { unfold stable_hardware_id in Hid.
      now destruct (utf8_encode (resolved_name py_format pkt)). }
    split.
    + intros e. rewrite Hok. split; [discriminate|].
      intros [_ H]. now apply Hnone in H.
    + split; [|now eauto]. intros _.
      apply Forall_forall. intros c Hc.
      destruct (is_scalar_value c) eqn:Hsv; [reflexivity|].
      exfalso. apply Henc, Hnone, Exists_exists. eauto.
  - pose proof (translate_packet_raises DEFAULT_LAT DEFAULT_LON py_format
                  now pkt e0 Hid) as Hr.
    assert (Henc : utf8_encode (resolved_name py_format pkt) = None /\
                   e0 = UnicodeEncodeError).
    { unfold stable_hardware_id in Hid.
      destruct (utf8_encode (resolved_name py_format pkt)); [discriminate|].
      now injection Hid as <-. }
    destruct Henc as [Henc ->]. apply Hnone in Henc.
    split.
    + intros e. rewrite Hr. split.
      * intros [= <-]. now split.
      * now intros [-> _].
    + rewrite Hr. split; [intros (s & r & [=])|].
      intros Hall. exfalso. apply Exists_exists in Henc as (c & Hc & Hsv).
      rewrite Forall_forall in Hall. specialize (Hall c Hc). congruence.
Qed.

(** X14. Every pair that [translate_packet] returns is well formed: the
    reading carries the sensor's [hardware_id], which lies in
    [1000, 1000 + 2^31 - 1] and is the identity of the sensor's name;
    the name is not empty; the timestamp is the clock reading of the
    call; the sensor type is a string or [None]; every measurement is
    the packet's field of the same name, [None] when the packet lacks
    it. *)
Theorem translate_packet_well_formed
    (now : Z) (pkt : gmap (list N) pyvalue) (s : sensor) (r : reading)
    (Hok : translate_packet DEFAULT_LAT DEFAULT_LON py_format now pkt
           = Ok (s, r)) :
  item_ok (s, r) /\
  stable_hardware_id (name s) = Ok (hardware_id s) /\
  name s <> [] /\
  ts r = now /\
  (sensor_type s = PyNone \/ exists t, sensor_type s = PyStr t) /\
  sequence r = dict_get pkt (py "sequence") /\
  temperature_c r = dict_get pkt (py "temperature_c") /\
  humidity_pct r = dict_get pkt (py "humidity_pct") /\
  capacitance_val r = dict_get pkt (py "capacitance_val") /\
  battery_v r = dict_get pkt (py "battery_v") /\
  rssi_dbm r = dict_get pkt (py "rssi_dbm").
Proof.
  pose proof (translate_packet_ok _ _ _ _ _ _ _ Hok)
    as (Hid & Hname & Hsid & Hts & _).
  split; [|split; [|split; [|split; [|split]]]].
  - split; [exact Hsid|]. now apply stable_hardware_id_range in Hid.
  - now rewrite Hname.
  - rewrite Hname. apply resolved_name_nonempty.
  - exact Hts.
  - unfold translate_packet in Hok. cbv zeta in Hok.
    destruct (stable_hardware_id _); [|discriminate].
    inversion Hok; subst. simpl.
    destruct (dict_get pkt (py "sensor_type")); simpl; eauto.
  - unfold translate_packet in Hok. cbv zeta in Hok.
    destruct (stable_hardware_id _); [|discriminate].
    inversion Hok; subst. simpl. now repeat split.
Qed.

(** X15. Packets without a usable name and without a [sensor_id] all
    share one identity: whenever [name] is absent, empty or not a
    string and [sensor_id] is absent or null, the sensor is named
    "tx-unknown" and gets [hardware_id] 90842959, whatever else the
    packet holds. *)
Theorem anonymous_packets_share_identity
    (now : Z) (pkt : gmap (list N) pyvalue)
    (Hname : forall c t, dict_get pkt (py "name") <> PyStr (c :: t))
    (Hsid : dict_get pkt (py "sensor_id") = PyNone) :
  exists s r,
    translate_packet DEFAULT_LAT DEFAULT_LON py_format now pkt = Ok (s, r) /\
    name s = py "tx-unknown" /\
    hardware_id s = 90842959 /\ sensor_id r = 90842959.
Proof.
  assert (Hres : resolved_name py_format pkt = py "tx-unknown").
  { unfold resolved_name. cbv zeta. rewrite Hsid.
    destruct (dict_get pkt (py "name")) as [| | | |[|c t]| |] eqn:Hn;
      try reflexivity.
    exfalso. exact (Hname c t eq_refl). }
  destruct (translate_packet_total DEFAULT_LAT DEFAULT_LON py_format now pkt
              90842959) as (s & r & Hok & Hh).
  { now rewrite Hres. }
  exists s, r. split; [exact Hok|].
  pose proof (translate_packet_ok _ _ _ _ _ _ _ Hok) as (_ & Hn & Hs & _).
  split; [now rewrite Hn|]. split; [exact Hh|]. now rewrite Hs.
Qed.

End WithEnvironment.

Lemma translate_packet_well_formed_witness :
  exists s r,
    translate_packet None None no_format 0 pkt_named_a = Ok (s, r) /\
    item_ok (s, r) /\ name s <> [] /\ ts r = 0.
Proof.
  eexists _, _. split; [reflexivity|].
  pose proof (translate_packet_well_formed None None no_format 0 pkt_named_a
                _ _ eq_refl) as (H1 & _ & H3 & H4 & _).
  split; [exact H1|]. split; [exact H3|exact H4].
Defined.

Lemma anonymous_packets_share_identity_witness :
  exists s r,
    translate_packet None None no_format 0 ∅ = Ok (s, r) /\
    name s = py "tx-unknown" /\
    hardware_id s = 90842959 /\ sensor_id r = 90842959.
Proof.
  apply (anonymous_packets_share_identity None None no_format 0 ∅).
  - intros c t. discriminate.
  - reflexivity.
Defined.

End TranslatorMore.
(* ================================================================== *)
(** * Properties of the batch uploader *)
(* ================================================================== *)

Section UploaderFacts.
Import PyStr Translator Uploader Shape.

(** ** The connection string *)

Lemma count_char_app c a b :
  count_char c (a ++ b) = (count_char c a + count_char c b)%nat.
Proof. unfold count_char. now rewrite filter_app, length_app. Qed.

Lemma contains_count c s :
  contains s [c] = true <-> (0 < count_char c s)%nat.
Proof.
  induction s as [|x s IH]; [unfold count_char; simpl; split; [discriminate|lia]|].
  cbn [contains startswith]. fold (contains s [c]).
  unfold count_char in *. rewrite filter_cons.
  destruct (N.eqb_spec x c) as [->|Hne].
  - rewrite decide_True by reflexivity. simpl. split; [lia|reflexivity].
  - rewrite decide_False by exact Hne. simpl. exact IH.
Qed.

Lemma digits_no_question_mark d :
  count_char 63%N (py (NilEmpty.string_of_uint d)) = 0%nat.
Proof. induction d; simpl; try reflexivity; exact IHd. Qed.

Lemma py_str_int_no_question_mark n :
  count_char 63%N (py_str_int n) = 0%nat.
Proof.
  unfold py_str_int, NilZero.string_of_int, NilZero.string_of_uint.
  destruct (Z.to_int n) as [d|d]; destruct d;
    try reflexivity; apply (digits_no_question_mark (_ d)).
Qed.

(** X16. The connection string is the URL followed by the
    [connect_timeout] option and has a well-formed query part: the URL
    is kept as a prefix, the timeout is written in decimal at the end,
    and the number of '?' becomes one for a URL without any and is
    unchanged otherwise. *)
Theorem dsn_keeps_url_and_query (db_url : list N) (timeout_s : Z) :
  let dsn := _dsn_with_timeout db_url timeout_s in
  db_url `prefix_of` dsn /\
  py "connect_timeout=" ++ py_str_int timeout_s `suffix_of` dsn /\
  count_char 63%N dsn = Nat.max 1 (count_char 63%N db_url).
Proof.
  unfold _dsn_with_timeout. change (py "?") with [63%N].
  pose proof (contains_count 63%N db_url) as Hc.
  pose proof (py_str_int_no_question_mark timeout_s) as Hd.
  destruct (contains db_url [63%N]) eqn:Hq; cbv zeta.
  - split; [now eexists|]. split.
    + exists (db_url ++ py "&"). now rewrite <- !app_assoc.
    + rewrite !count_char_app, Hd.
      change (count_char 63%N (py "&connect_timeout=")) with 0%nat.
      assert (0 < count_char 63%N db_url)%nat by now apply Hc. lia.
  - split; [now eexists|]. split.
    + exists (db_url ++ py "?"). now rewrite <- !app_assoc.
    + rewrite !count_char_app, Hd.
      change (count_char 63%N (py "?connect_timeout=")) with 1%nat.
      assert (count_char 63%N db_url = 0)%nat.
      { destruct (count_char 63%N db_url); [reflexivity|].
        assert (false = true) by (apply Hc; lia). discriminate. }
      lia.
Qed.

(** ** Deduplication of sensors *)

Lemma dict_set_keys {V} (d : list (Z * V)) k v k' :
  k' ∈ (d.*1) \/ k' = k <-> k' ∈ (dict_set d k v).*1.
Proof.
  induction d as [|[k0 v0] d IH]; simpl.
  - rewrite list_elem_of_singleton. split; [intros [H|H]|]; auto.
    now apply elem_of_nil in H.
  - destruct (Z.eqb_spec k0 k) as [->|Hne]; simpl.
    + rewrite !elem_of_cons. tauto.
    + rewrite !elem_of_cons, <- IH. tauto.
Qed.

Lemma dict_set_NoDup {V} (d : list (Z * V)) k v :
  NoDup (d.*1) -> NoDup ((dict_set d k v).*1).
Proof.
  induction d as [|[k0 v0] d IH]; simpl; intros Hnd.
  - apply NoDup_singleton.
  - apply NoDup_cons in Hnd as [Hnotin Hnd].
    destruct (Z.eqb_spec k0 k) as [->|Hne]; simpl.
    + now apply NoDup_cons.
    + apply NoDup_cons. split; [|now apply IH].
      rewrite <- dict_set_keys. intros [H|H]; [contradiction|congruence].
Qed.

Lemma dict_set_new {V} (d : list (Z * V)) k v : (k, v) ∈ dict_set d k v.
Proof.
  induction d as [|[k0 v0] d IH]; simpl; [apply list_elem_of_singleton; reflexivity|].
  destruct (k0 =? k); [apply list_elem_of_here|now apply list_elem_of_further].
Qed.

Lemma dict_set_other {V} (d : list (Z * V)) k v k' v' :
  k' <> k -> ((k', v') ∈ dict_set d k v <-> (k', v') ∈ d).
Proof.
  intros Hne. induction d as [|[k0 v0] d IH]; simpl.
  - rewrite list_elem_of_singleton. split; [intros [= ? ?]; contradiction|].
    intros H. now apply elem_of_nil in H.
  - destruct (Z.eqb_spec k0 k) as [->|Hne0].
    + rewrite !elem_of_cons. split; intros [[= ? ?]|H]; auto;
        try contradiction; congruence.
    + rewrite !elem_of_cons, IH. tauto.
Qed.

Lemma dict_set_elem {V} (d : list (Z * V)) k v x :
  x ∈ dict_set d k v -> x = (k, v) \/ x ∈ d.
Proof.
  induction d as [|[k0 v0] d IH]; simpl.
  - rewrite list_elem_of_singleton. auto.
  - destruct (k0 =? k); rewrite !elem_of_cons; [tauto|].
    intros [H|H]; [tauto|]. apply IH in H. tauto.
Qed.

Lemma dedup_from_NoDup sensors d :
  NoDup (d.*1) -> NoDup ((dedup_from d sensors).*1).
Proof.
  revert d. induction sensors as [|s l IH]; intros d Hd; [exact Hd|].
  apply IH. now apply dict_set_NoDup.
Qed.

Lemma dedup_from_keys sensors d k :
  k ∈ (dedup_from d sensors).*1 <-> k ∈ d.*1 \/ k ∈ hardware_id <$> sensors.
Proof.
  revert d. induction sensors as [|s l IH]; intros d; simpl.
  - rewrite elem_of_nil. tauto.
  - rewrite IH, <- dict_set_keys, elem_of_cons. intuition congruence.
Qed.

Lemma dedup_from_keeps sensors d k v :
  (k, v) ∈ d -> k ∉ hardware_id <$> sensors -> (k, v) ∈ dedup_from d sensors.
Proof.
  revert d. induction sensors as [|s l IH]; intros d Hin Hnot; [exact Hin|].
  simpl in *. rewrite not_elem_of_cons in Hnot. destruct Hnot as [Hne Hnot].
  apply IH; [|exact Hnot]. now apply dict_set_other.
Qed.

Lemma dedup_from_app d l1 l2 :
  dedup_from d (l1 ++ l2) = dedup_from (dedup_from d l1) l2.
Proof. apply fold_left_app. Qed.

Lemma dedup_from_origin sensors d k s :
  (k, s) ∈ dedup_from d sensors ->
  (k, s) ∈ d \/ (s ∈ sensors /\ hardware_id s = k).
Proof.
  revert d. induction sensors as [|s0 l IH]; intros d Hin; [now left|].
  simpl in Hin. apply IH in Hin as [Hin|[Hin Hk]].
  - apply dict_set_elem in Hin as [[= -> ->]|Hin]; [right|now left].
    split; [apply list_elem_of_here|reflexivity].
  - right. split; [now apply list_elem_of_further|exact Hk].
Qed.

Lemma dedup_keys_are_ids sensors :
  Forall (fun kv => fst kv = hardware_id (snd kv)) (dedup_sensors sensors).
Proof.
  apply Forall_forall. intros [k s] Hin.
  apply (dedup_from_origin sensors []) in Hin as [Hin|[_ Hk]]; [|now simpl].
  now apply elem_of_nil in Hin.
Qed.

Section WithLibraries.
Variable json_dumps : pyvalue -> list N.
Variable execute_values : bool.
Variable CONNECT_TIMEOUT_S : Z.

Lemma rows_ids_of_dict (d : list (Z * sensor)) :
  Forall (fun kv => fst kv = hardware_id (snd kv)) d ->
  sensor_row_id <$> List.map (fun kv => sensor_row_of json_dumps (snd kv)) d
  = d.*1.
Proof.
  induction 1 as [|[k s] d Hk _ IH]; [reflexivity|].
  simpl in *. f_equal; [now rewrite Hk|exact IH].
Qed.

Lemma sensor_rows_ids sensors :
  sensor_row_id <$> sensor_rows json_dumps sensors = (dedup_sensors sensors).*1.
Proof. apply rows_ids_of_dict, dedup_keys_are_ids. Qed.

Lemma sensor_rows_id_iff sensors id :
  id ∈ sensor_row_id <$> sensor_rows json_dumps sensors
  <-> id ∈ hardware_id <$> sensors.
Proof.
  rewrite sensor_rows_ids. unfold dedup_sensors.
  rewrite (dedup_from_keys sensors [] id). simpl. rewrite elem_of_nil. tauto.
Qed.

(** X17. The rows [ensure_sensors] sends have pairwise distinct
    [hardware_id]s, one for every [hardware_id] of the batch and no
    other; every row is built from a sensor of the batch, and where an
    identity occurs several times the row is built from its last
    occurrence. *)
Theorem sensor_rows_last_write_wins (sensors : list sensor) :
  let rows := sensor_rows json_dumps sensors in
  NoDup (sensor_row_id <$> rows) /\
  (forall id, id ∈ sensor_row_id <$> rows <-> id ∈ hardware_id <$> sensors) /\
  (forall row, row ∈ rows ->
     exists s, s ∈ sensors /\ row = sensor_row_of json_dumps s) /\
  (forall l1 s l2, sensors = l1 ++ s :: l2 ->
     hardware_id s ∉ hardware_id <$> l2 ->
     sensor_row_of json_dumps s ∈ rows).
Proof.
  cbv zeta. split; [|split; [|split]].
  - rewrite sensor_rows_ids. apply (dedup_from_NoDup sensors []). constructor.
  - apply sensor_rows_id_iff.
  - intros row Hrow. unfold sensor_rows in Hrow.
    apply list_elem_of_In, in_map_iff in Hrow as ([k s] & <- & Hin).
    apply list_elem_of_In in Hin.
    apply (dedup_from_origin sensors []) in Hin as [Hin|[Hin _]].
    + now apply elem_of_nil in Hin.
    + now exists s.
  - intros l1 s l2 -> Hlast. unfold sensor_rows.
    apply list_elem_of_In, in_map_iff. exists (hardware_id s, s).
    split; [reflexivity|]. apply list_elem_of_In.
    unfold dedup_sensors. fold (dedup_from [] (l1 ++ s :: l2)).
    rewrite dedup_from_app. simpl.
    apply dedup_from_keeps; [apply dict_set_new|exact Hlast].
Qed.

Abbreviation flush := (flush_queue json_dumps execute_values CONNECT_TIMEOUT_S).
Abbreviation all_calls := (full_trace json_dumps execute_values CONNECT_TIMEOUT_S).

Lemma exists_last_or_nil {B} (l : list B) :
  l = [] \/ exists l' x, l = l' ++ [x].
Proof.
  destruct l as [|b l]; [now left|right].
  destruct (exists_last (l:=b :: l)) as (l' & x & ->); [discriminate|eauto].
Qed.

Lemma commit_last_only (db_url : list N) (items : list (sensor * reading))
    (tr : trace) :
  tr `prefix_of` all_calls db_url items ->
  (Commit ∈ tr <-> tr = all_calls db_url items).
Proof.
  intros [rest Hrest].
  set (pre := take 4 (all_calls db_url items)).
  assert (Hall : all_calls db_url items = pre ++ [Commit]) by reflexivity.
  assert (Hpre : Commit ∉ pre).
  { unfold pre, full_trace. simpl. rewrite !not_elem_of_cons.
    destruct execute_values; repeat split; try discriminate; apply not_elem_of_nil. }
  rewrite Hall in *. clearbody pre.
  destruct (exists_last_or_nil rest) as [->|(rest' & x & ->)].
  - rewrite app_nil_r in Hrest. subst tr. split; [reflexivity|].
    intros _. apply elem_of_app. right. apply list_elem_of_here.
  - rewrite app_assoc in Hrest. apply app_inj_tail in Hrest as [-> _].
    split.
    + intros Hin. exfalso. apply Hpre, elem_of_app. now left.
    + intros Heq. exfalso. apply (f_equal length) in Heq.
      rewrite !length_app in Heq. simpl in Heq. lia.
Qed.

(** A flush of a non-empty batch stops at the first call that raises,
    or runs through all five calls and returns the batch size. *)
Lemma flush_queue_outcome (server : database) (db_url : list N)
    (it : sensor * reading) (l : list (sensor * reading)) :
  let items := it :: l in
  (exists k e, (k < 5)%nat /\
     flush server db_url items = (Raise e, take k (all_calls db_url items))) \/
  flush server db_url items
    = (Ok (Z.of_nat (length items)), all_calls db_url items).
Proof.
  cbv zeta. unfold flush_queue, full_trace, bind, call, ret.
  cbn [List.map ensure_sensors insert_readings].
  set (c1 := Connect _). set (c2 := Execute _).
  destruct (server [] c1) as [e|] eqn:H1.
  { left. exists 0%nat, e. split; [lia|reflexivity]. }
  cbn [app]. destruct (server [c1] c2) as [e|] eqn:H2.
  { left. exists 1%nat, e. split; [lia|reflexivity]. }
  cbn [app]. unfold bind, call, ret.
  destruct execute_values.
  - set (c3 := ExecuteValues _ (SensorRows _)).
    set (c4 := ExecuteValues _ (ReadingRows _)).
    destruct (server [c1; c2] c3) as [e|] eqn:H3.
    { left. exists 2%nat, e. split; [lia|reflexivity]. }
    cbn [app]. destruct (server [c1; c2; c3] c4) as [e|] eqn:H4.
    { left. exists 3%nat, e. split; [lia|reflexivity]. }
    cbn [app]. destruct (server [c1; c2; c3; c4] Commit) as [e|] eqn:H5.
    { left. exists 4%nat, e. split; [lia|reflexivity]. }
    right. reflexivity.
  - set (c3 := ExecuteMany _ (SensorRows _)).
    set (c4 := ExecuteMany _ (ReadingRows _)).
    destruct (server [c1; c2] c3) as [e|] eqn:H3.
    { left. exists 2%nat, e. split; [lia|reflexivity]. }
    cbn [app]. destruct (server [c1; c2; c3] c4) as [e|] eqn:H4.
    { left. exists 3%nat, e. split; [lia|reflexivity]. }
    cbn [app]. destruct (server [c1; c2; c3; c4] Commit) as [e|] eqn:H5.
    { left. exists 4%nat, e. split; [lia|reflexivity]. }
    right. reflexivity.
Qed.

(** X18. A flush makes its calls in one fixed order (connect, set the
    time zone, upsert the sensors, insert the readings, commit) and
    stops at the first that raises: the completed calls are a prefix of
    that list, so the commit completes only after the four calls before
    it.  When the flush returns, all five calls completed and the count
    returned is the batch size; when a call raises, the flush raises
    and the commit has not completed.  An empty batch returns 0 without
    any call. *)
Theorem flush_queue_commits_last (server : database) (db_url : list N)
    (items : list (sensor * reading)) :
  let '(r, tr) := flush server db_url items in
  tr `prefix_of` all_calls db_url items /\
  (Commit ∈ tr <-> tr = all_calls db_url items) /\
  (forall n, r = Ok n ->
     n = Z.of_nat (length items) /\
     (items <> [] -> tr = all_calls db_url items)) /\
  (forall e, r = Raise e -> Commit ∉ tr) /\
  (items = [] -> r = Ok 0 /\ tr = []).
Proof.
  destruct items as [|it l].
  { simpl. split; [apply prefix_nil|].
    split; [apply (commit_last_only db_url [] []), prefix_nil|].
    split; [intros n [= <-]; split; [reflexivity|now intros H]|].
    split; [discriminate|auto]. }
  destruct (flush_queue_outcome server db_url it l) as [(k & e & Hk & ->)| ->].
  - assert (Hp : take k (all_calls db_url (it :: l))
                 `prefix_of` all_calls db_url (it :: l)) by apply prefix_take.
    pose proof (commit_last_only db_url (it :: l) _ Hp) as Hc.
    assert (Hne : take k (all_calls db_url (it :: l))
                  <> all_calls db_url (it :: l)).
    { intros Heq. apply (f_equal length) in Heq.
      rewrite length_take in Heq. simpl in Heq. lia. }
    split; [exact Hp|]. split; [exact Hc|]. split; [discriminate|].
    split; [|discriminate]. intros e' _ Hin. now apply Hc in Hin.
  - pose proof (commit_last_only db_url (it :: l) _ (reflexivity _)) as Hc.
    split; [reflexivity|]. split; [exact Hc|].
    split; [now intros n [= <-]|]. split; discriminate.
Qed.

(** X19. When every item of a batch pairs a reading with its own sensor
    (as [translate_packet] builds them), every reading row the flush
    inserts names a sensor that the same flush upserts before it: the
    [sensor_id] of each reading row is the [hardware_id] of one of the
    sensor rows. *)
Theorem reading_rows_reference_sensor_rows
    (items : list (sensor * reading)) (row : reading_row)
    (Hitems : Forall item_ok items)
    (Hrow : row ∈ List.map reading_row_of (List.map snd items)) :
  reading_row_sensor row
    ∈ sensor_row_id <$> sensor_rows json_dumps (List.map fst items).
Proof.
  apply list_elem_of_In, in_map_iff in Hrow as (r & <- & Hr).
  apply in_map_iff in Hr as ([s r'] & Heq & Hin). simpl in Heq. subst r'.
  apply sensor_rows_id_iff. rewrite Forall_forall in Hitems.
  apply list_elem_of_In in Hin. destruct (Hitems _ Hin) as [Hsid _].
  simpl in Hsid. unfold reading_row_sensor, reading_row_of. rewrite Hsid.
  apply list_elem_of_fmap. exists s. split; [reflexivity|].
  apply list_elem_of_In, in_map_iff. exists (s, r). split; [reflexivity|].
  now apply list_elem_of_In.
Qed.

End WithLibraries.

Lemma reading_rows_reference_sensor_rows_witness :
  reading_row_sensor (reading_row_of sample_reading)
    ∈ sensor_row_id <$> sensor_rows no_dumps [sample_sensor].
Proof.
  apply (reading_rows_reference_sensor_rows no_dumps
           [(sample_sensor, sample_reading)] (reading_row_of sample_reading)).
  - repeat constructor; simpl; lia.
  - apply list_elem_of_here.
Defined.

End UploaderFacts.
(* ================================================================== *)
(** * Properties of the serial ingest *)
(* ================================================================== *)

Section ReaderFacts.
Import PyStr Parser Translator Queue Reader Float Switcher Shape.

Lemma next_backoff_cap : next_backoff f30 = f30.
Proof. reflexivity. Qed.

Lemma backoff_after_capped k : (5 <= k)%nat -> backoff_after k = f30.
Proof.
  induction 1 as [|k _ IH]; [reflexivity|].
  unfold backoff_after in *. rewrite Nat.iter_succ, IH. apply next_backoff_cap.
Qed.

Lemma backoff_after_eq k :
  backoff_after k = if (k <? 5)%nat then pow2 k else f30.
Proof.
  destruct (Nat.ltb_spec k 5) as [Hlt|Hge]; [|now apply backoff_after_capped].
  do 5 (destruct k as [|k]; [reflexivity|]). lia.
Qed.

(** X20. The delay before the next attempt to open the serial port
    doubles from one second with every failure in a row and is capped
    at thirty: after [k] failures it is 2^k seconds for k < 5 and 30
    seconds from then on; it never decreases and stays within
    [1, 30]. *)
Theorem backoff_doubles_up_to_cap (k : nat) :
  backoff_after k = (if (k <? 5)%nat then pow2 k else f30) /\
  SFleb f1 (backoff_after k) = true /\
  SFleb (backoff_after k) f30 = true /\
  SFleb (backoff_after k) (backoff_after (S k)) = true.
Proof.
  rewrite !backoff_after_eq.
  destruct (Nat.ltb_spec k 5) as [Hlt|Hge].
  - do 5 (destruct k as [|k]; [now vm_compute|]). lia.
  - destruct (Nat.ltb_spec (S k) 5); [lia|]. now vm_compute.
Qed.

(** X21. A phase of the duty cycle is never shorter than 0.1 seconds
    and never NaN, whatever number of minutes is configured (zero,
    negative, NaN included); a length above 0.1 seconds is used as it
    is. *)
Theorem phase_seconds_floor (minutes : spec_float) :
  SFleb f0_1 (phase_seconds minutes) = true /\
  phase_seconds minutes <> S754_nan /\
  (SFltb f0_1 (b64_mul minutes f60) = true ->
   phase_seconds minutes = b64_mul minutes f60) /\
  (SFltb f0_1 (b64_mul minutes f60) = false ->
   phase_seconds minutes = f0_1).
Proof.
  unfold phase_seconds, py_max.
  destruct (SFltb f0_1 (b64_mul minutes f60)) eqn:Hlt.
  - split; [|split; [|split; [reflexivity|discriminate]]].
    + unfold SFltb in Hlt. unfold SFleb.
      now destruct (SFcompare f0_1 (b64_mul minutes f60)) as [[]|].
    + intros Hnan. rewrite Hnan in Hlt. discriminate Hlt.
  - split; [reflexivity|]. split; [discriminate|]. split; [discriminate|easy].
Qed.

Section WithEnvironment.
Variable json_loads : list N -> result pyvalue.
Variables DEFAULT_LAT DEFAULT_LON : option spec_float.
Variable py_format : pyvalue -> list N.

Abbreviation handle :=
  (handle_line json_loads DEFAULT_LAT DEFAULT_LON py_format).
Abbreviation translate :=
  (translate_packet DEFAULT_LAT DEFAULT_LON py_format).
Abbreviation parse := (parse_line_to_packet json_loads).

(** The outcomes of one line. *)
Lemma handle_line_cases now raw q :
  (handle now raw q = Ok q /\
   (raw = [] \/ parse raw = Ok None \/ parse raw = Ok (Some ∅) \/
    exists pkt e, parse raw = Ok (Some pkt) /\ translate now pkt = Raise e)) \/
  (exists pkt s r, raw <> [] /\ parse raw = Ok (Some pkt) /\ pkt <> ∅ /\
     translate now pkt = Ok (s, r) /\ handle now raw q = Ok (q ++ [(s, r)])) \/
  (exists e, raw <> [] /\ parse raw = Raise e /\ handle now raw q = Raise e).
Proof.
  unfold handle_line. destruct raw as [|c raw]; [left; auto|].
  destruct (parse_line_to_packet json_loads (c :: raw)) as [[pkt|]|e] eqn:Hp.
  - case_bool_decide as Hempty.
    + subst pkt. left. auto.
    + unfold on_packet.
      destruct (translate_packet _ _ _ now pkt) as [[s r]|e] eqn:Ht.
      * right. left. exists pkt, s, r. now repeat split.
      * left. split; [reflexivity|]. right. right. right. eauto.
  - left. auto.
  - right. right. exists e. now repeat split.
Qed.

(** X22. One line changes the queue by at most one item, appended at
    the end: a line is either dropped (empty, not a packet, an empty
    object, or a packet whose translation raises), or its packet is
    translated and the pair enqueued behind the items already there;
    the only exceptions that leave the handler are those the parser
    lets through. *)
Theorem handle_line_appends_at_most_one
    (now : Z) (raw : list N) (q : list (sensor * reading)) :
  (forall q', handle now raw q = Ok q' ->
     q' = q \/
     exists pkt s r, parse raw = Ok (Some pkt) /\ pkt <> ∅ /\
       translate now pkt = Ok (s, r) /\ q' = q ++ [(s, r)]) /\
  (forall pkt e, parse raw = Ok (Some pkt) -> translate now pkt = Raise e ->
     handle now raw q = Ok q) /\
  (parse raw = Ok (Some ∅) -> handle now raw q = Ok q) /\
  (forall e, handle now raw q = Raise e <-> raw <> [] /\ parse raw = Raise e).
Proof.
  destruct (handle_line_cases now raw q)
    as [[Hq Hwhy]|[(pkt & s & r & Hne & Hp & Hpkt & Ht & Hq)|(e & Hne & Hp & Hq)]].
  - split; [intros q' Hq'; left; congruence|].
    split; [auto|]. split; [auto|].
    intros e. rewrite Hq. split; [discriminate|]. intros [Hne Hp].
    destruct Hwhy as [->|[H|[H|(pkt & e' & H & _)]]];
      [now contradict Hne|congruence..].
  - split.
    { intros q' Hq'. right. exists pkt, s, r. repeat split; try easy. congruence. }
    split; [intros pkt' e Hp' Ht'; congruence|].
    split; [intros Hp'; congruence|].
    intros e. rewrite Hq. split; [discriminate|]. intros [_ Hp']. congruence.
  - split; [intros q' Hq'; congruence|].
    split; [intros pkt e' Hp'; congruence|].
    split; [intros Hp'; congruence|].
    intros e'. rewrite Hq. split; [intros [= <-]; now split|].
    intros [_ Hp']. congruence.
Qed.

(** X23. The items of the queue stay well formed: if every item pairs
    a reading with its own sensor and carries an identity in
    [1000, 1000 + 2^31 - 1], the same holds after a line is handled,
    after a batch is taken (for the batch and for the rest) and after a
    tick, whether its flush succeeds or raises. *)
Theorem queue_items_stay_well_formed (q : list (sensor * reading))
    (Hq : Forall item_ok q) :
  (forall now raw q', handle now raw q = Ok q' -> Forall item_ok q') /\
  (forall n, Forall item_ok (fst (dequeue_batch q n)) /\
             Forall item_ok (snd (dequeue_batch q n))) /\
  (forall flush_queue n arrivals,
     Forall item_ok arrivals ->
     Forall item_ok (flush_tick flush_queue n arrivals q)).
Proof.
  assert (Hbatch : forall n, Forall item_ok (take (Z.to_nat n) q) /\
                             Forall item_ok (drop (Z.to_nat n) q)).
  { intros n. split; [now apply Forall_take|now apply Forall_drop]. }
  split; [|split].
  - intros now raw q' Hq'.
    destruct (handle_line_cases now raw q)
      as [[H _]|[(pkt & s & r & _ & _ & _ & Ht & H)|(e & _ & _ & H)]];
      rewrite H in Hq'; [now injection Hq' as <-| |discriminate].
    injection Hq' as <-. apply Forall_app. split; [exact Hq|].
    apply Forall_singleton.
    pose proof (translate_packet_ok _ _ _ _ _ _ _ Ht) as (Hid & _ & Hs & _).
    split; [exact Hs|]. now apply stable_hardware_id_range in Hid.
  - intros n. rewrite dequeue_batch_eq. apply Hbatch.
  - intros f n arrivals Ha. unfold flush_tick. rewrite dequeue_batch_eq.
    destruct (Hbatch n) as [Ht Hd].
    destruct (take (Z.to_nat n) q) as [|x items] eqn:Hb; [exact Hd|].
    rewrite enqueue_all.
    destruct (f (x :: items)).
    + apply Forall_app. now split.
    + rewrite requeue_eq. apply Forall_app. split; [now apply Forall_app|].
      now apply Forall_rev.
Qed.

End WithEnvironment.

Lemma queue_items_stay_well_formed_witness :
  (forall now raw q',
     handle_line sample_json_loads None None no_format now raw
       [(Uploader.sample_sensor, Uploader.sample_reading)] = Ok q' ->
     Forall item_ok q') /\
  (forall n,
     Forall item_ok
       (fst (dequeue_batch [(Uploader.sample_sensor, Uploader.sample_reading)] n)) /\
     Forall item_ok
       (snd (dequeue_batch [(Uploader.sample_sensor, Uploader.sample_reading)] n))) /\
  (forall flush_queue n arrivals,
     Forall item_ok arrivals ->
     Forall item_ok
       (flush_tick flush_queue n arrivals
          [(Uploader.sample_sensor, Uploader.sample_reading)])).
Proof.
  apply (queue_items_stay_well_formed sample_json_loads None None no_format
           [(Uploader.sample_sensor, Uploader.sample_reading)]).
  repeat constructor; simpl; lia.
Defined.

End ReaderFacts.
(* ================================================================== *)
(** * Properties of the start-up *)
(* ================================================================== *)

Section StartupFacts.
Import PyStr Startup.

Lemma str_lt_irrefl a : str_lt a a = false.
Proof.
  induction a as [|x a IH]; [reflexivity|].
  simpl. now rewrite N.ltb_irrefl, N.eqb_refl, IH.
Qed.

Lemma str_lt_trans a b c :
  str_lt a b = true -> str_lt b c = true -> str_lt a c = true.
Proof.
  revert b c. induction a as [|x a IH]; intros [|y b] [|z c]; simpl;
    try discriminate; try reflexivity.
  rewrite !orb_true_iff, !andb_true_iff, !N.ltb_lt, !N.eqb_eq.
  intros [Hxy|[-> Hab]] [Hyz|[-> Hbc]].
  - left. lia.
  - now left.
  - now left.
  - right. split; [reflexivity|]. now apply (IH b c).
Qed.

Lemma least_of_insert x acc y :
  hd_error acc = Some y -> least_of y acc ->
  exists m, hd_error (insert_sorted x acc) = Some m /\ least_of m (x :: acc).
Proof.
  intros Hhd [Hin Hmin]. destruct acc as [|y' acc]; [discriminate|].
  injection Hhd as ->. simpl.
  destruct (str_lt x y) eqn:Hxy.
  - exists x. split; [reflexivity|]. split; [apply list_elem_of_here|].
    intros z Hz. apply elem_of_cons in Hz as [->|Hz]; [apply str_lt_irrefl|].
    destruct (str_lt z x) eqn:Hzx; [|reflexivity].
    rewrite <- (Hmin z Hz). symmetry. now apply (str_lt_trans z x y).
  - exists y. split; [reflexivity|].
    split; [apply list_elem_of_further, list_elem_of_here|].
    intros z Hz. apply elem_of_cons in Hz as [->|Hz]; [exact Hxy|now apply Hmin].
Qed.

Lemma insert_sorted_elems x acc z :
  z ∈ insert_sorted x acc <-> z = x \/ z ∈ acc.
Proof.
  induction acc as [|y acc IH]; simpl.
  - rewrite list_elem_of_singleton, elem_of_nil. tauto.
  - destruct (str_lt x y); rewrite !elem_of_cons; [tauto|]. rewrite IH. tauto.
Qed.

Lemma least_of_ext m l1 l2 :
  (forall z, z ∈ l1 <-> z ∈ l2) -> least_of m l1 -> least_of m l2.
Proof.
  intros Hext [Hin Hmin]. split; [now apply Hext|].
  intros z Hz. now apply Hmin, Hext.
Qed.

(** The head of the list built by the insertion loop is a least element
    of everything inserted. *)
Lemma sorted_loop_head l acc y :
  hd_error acc = Some y -> least_of y acc ->
  exists m, hd_error (fold_left (fun acc x => insert_sorted x acc) l acc)
            = Some m /\ least_of m (acc ++ l).
Proof.
  revert acc y. induction l as [|x l IH]; intros acc y Hhd Hleast.
  - exists y. rewrite app_nil_r. now split.
  - simpl. destruct (least_of_insert x acc y Hhd Hleast) as (m & Hm & Hl).
    destruct (IH (insert_sorted x acc) m Hm) as (m' & Hm' & Hl').
    + apply (least_of_ext m (x :: acc)); [|exact Hl].
      intros z. rewrite insert_sorted_elems, elem_of_cons. tauto.
    + exists m'. split; [exact Hm'|].
      apply (least_of_ext m' (insert_sorted x acc ++ l)); [|exact Hl'].
      intros z. rewrite !elem_of_app, insert_sorted_elems, elem_of_cons. tauto.
Qed.

Lemma sorted_head l :
  match sorted l with
  | [] => l = []
  | m :: _ => least_of m l
  end.
Proof.
  destruct l as [|x l]; [reflexivity|].
  unfold sorted. simpl.
  destruct (sorted_loop_head l [x] x eq_refl) as (m & Hm & Hl).
  { split; [apply list_elem_of_here|].
    intros z Hz. apply list_elem_of_singleton in Hz as ->. apply str_lt_irrefl. }
  destruct (fold_left _ l [x]) as [|m' rest]; [discriminate|].
  injection Hm as ->. exact Hl.
Qed.

Section WithSystem.
Variable path_exists : list N -> bool.
Variable glob : list N -> list (list N).

Abbreviation find := (find_serial_port path_exists glob).

Lemma first_match_cons pat pats :
  (glob pat = [] /\ first_match glob (pat :: pats) = first_match glob pats) \/
  (exists m, least_of m (glob pat) /\ first_match glob (pat :: pats) = Ok m).
Proof.
  simpl. pose proof (sorted_head (glob pat)) as H.
  destruct (sorted (glob pat)) as [|m rest]; [left|right]; eauto.
Qed.

Lemma find_serial_port_fallback explicit_path :
  usable path_exists explicit_path = false ->
  find explicit_path = first_match glob patterns.
Proof.
  unfold find_serial_port, usable.
  destruct explicit_path as [[|c p]|]; try reflexivity. now intros ->.
Qed.

(** X24. [find_serial_port] returns the explicit path whenever one is
    given and exists; otherwise it returns the least path, in string
    order, among the matches of the first pattern that has any, trying
    /dev/ttyACM*, /dev/ttyUSB* and /dev/serial/by-id/* in this order;
    it raises exactly when the explicit path is unusable and no pattern
    matches. *)
Theorem find_serial_port_priority (explicit_path : option (list N)) :
  let acm := glob (py "/dev/ttyACM*") in
  let usb := glob (py "/dev/ttyUSB*") in
  let by_id := glob (py "/dev/serial/by-id/*") in
  (forall p, explicit_path = Some p -> p <> [] -> path_exists p = true ->
     find explicit_path = Ok p) /\
  (usable path_exists explicit_path = false ->
   (acm <> [] -> exists m, find explicit_path = Ok m /\ least_of m acm) /\
   (acm = [] -> usb <> [] ->
      exists m, find explicit_path = Ok m /\ least_of m usb) /\
   (acm = [] -> usb = [] -> by_id <> [] ->
      exists m, find explicit_path = Ok m /\ least_of m by_id)) /\
  ((exists e, find explicit_path = Raise e) <->
   usable path_exists explicit_path = false /\
   acm = [] /\ usb = [] /\ by_id = []).
Proof.
  cbv zeta. split; [|split].
  - intros [|c p] -> Hne Hex; [now contradict Hne|].
    unfold find_serial_port. now rewrite Hex.
  - intros Hu. rewrite (find_serial_port_fallback _ Hu). unfold patterns.
    destruct (first_match_cons (py "/dev/ttyACM*")
                [py "/dev/ttyUSB*"; py "/dev/serial/by-id/*"])
      as [[Ha ->]|(m & Hm & ->)].
    2:{ split; [eauto|]. destruct Hm as [Hin _].
        split; intros Ha; rewrite Ha in Hin; now apply elem_of_nil in Hin. }
    split; [intros H; now contradict H|].
    destruct (first_match_cons (py "/dev/ttyUSB*") [py "/dev/serial/by-id/*"])
      as [[Hb ->]|(m & Hm & ->)].
    2:{ split; [eauto|]. destruct Hm as [Hin _].
        intros _ Hb. rewrite Hb in Hin. now apply elem_of_nil in Hin. }
    split; [intros _ H; now contradict H|].
    destruct (first_match_cons (py "/dev/serial/by-id/*") [])
      as [[Hc ->]|(m & Hm & ->)]; [|eauto].
    intros _ _ H. now contradict H.
  - destruct (usable path_exists explicit_path) eqn:Hu.
    + split; [|intros [[=] _]]. intros [e He]. exfalso.
      unfold find_serial_port, usable in *.
      destruct explicit_path as [[|c p]|]; try discriminate.
      rewrite Hu in He. discriminate.
    + rewrite (find_serial_port_fallback _ Hu). unfold patterns.
      destruct (first_match_cons (py "/dev/ttyACM*")
                  [py "/dev/ttyUSB*"; py "/dev/serial/by-id/*"])
        as [[Ha ->]|(m & [Hin _] & ->)].
      2:{ split; [intros [e [=]]|]. intros (_ & Ha & _).
          rewrite Ha in Hin. now apply elem_of_nil in Hin. }
      destruct (first_match_cons (py "/dev/ttyUSB*") [py "/dev/serial/by-id/*"])
        as [[Hb ->]|(m & [Hin _] & ->)].
      2:{ split; [intros [e [=]]|]. intros (_ & _ & Hb & _).
          rewrite Hb in Hin. now apply elem_of_nil in Hin. }
      destruct (first_match_cons (py "/dev/serial/by-id/*") [])
        as [[Hc ->]|(m & [Hin _] & ->)].
      2:{ split; [intros [e [=]]|]. intros (_ & _ & _ & Hc).
          rewrite Hc in Hin. now apply elem_of_nil in Hin. }
      simpl. split; [auto|eauto].
Qed.

End WithSystem.

Section WithEnvironment.
Variable path_exists : list N -> bool.
Variable glob : list N -> list (list N).
Variable getenv : string -> option (list N).
Variable py_float : list N -> option spec_float.
Variable py_int : list N -> Z -> option Z.
Variable py_lower : list N -> list N.
Variables (DEFAULT_BAUD DEFAULT_BATCH_SIZE : Z)
          (DEFAULT_TICK_SECONDS : spec_float).

Abbreviation config_of_env :=
  (load_config getenv py_float py_int py_lower
     DEFAULT_BAUD DEFAULT_BATCH_SIZE DEFAULT_TICK_SECONDS).
Abbreviation startup_of_env :=
  (main_startup path_exists glob getenv py_float py_int py_lower
     DEFAULT_BAUD DEFAULT_BATCH_SIZE DEFAULT_TICK_SECONDS).

Lemma load_config_raises_iff :
  (exists e, config_of_env = Raise e) <->
  getenv "DATABASE_URL" = None \/ getenv "DATABASE_URL" = Some [] \/
  py_float (getenv_or_zero getenv "STARLINK_UPTIME_MINS") = None \/
  py_float (getenv_or_zero getenv "STARLINK_DOWNTIME_MINS") = None.
Proof.
  unfold load_config.
  destruct (getenv "DATABASE_URL") as [[|c url]|];
    [split; eauto| |split; eauto].
  destruct (py_float (getenv_or_zero getenv "STARLINK_UPTIME_MINS"));
    [|split; eauto].
  destruct (py_float (getenv_or_zero getenv "STARLINK_DOWNTIME_MINS"));
    [|split; eauto].
  split; [intros [e [=]]|]. intros [H|[H|[H|H]]]; discriminate H.
Qed.

Lemma load_config_ok cfg :
  config_of_env = Ok cfg ->
  Some (db_url cfg) = getenv "DATABASE_URL" /\ db_url cfg <> [] /\
  serial_port cfg = getenv "SERIAL_PORT" /\
  dsd_device_mac cfg = getenv "DSD_DEVICE_MAC" /\
  Some (starlink_uptime_mins cfg)
    = py_float (getenv_or_zero getenv "STARLINK_UPTIME_MINS") /\
  Some (starlink_downtime_mins cfg)
    = py_float (getenv_or_zero getenv "STARLINK_DOWNTIME_MINS") /\
  dsd_password cfg
    = Password._parse_pwd py_int py_lower (getenv "DSD_PASSWORD").
Proof.
  unfold load_config.
  destruct (getenv "DATABASE_URL") as [[|c url]|]; try discriminate.
  destruct (py_float (getenv_or_zero getenv "STARLINK_UPTIME_MINS"));
    [|discriminate].
  destruct (py_float (getenv_or_zero getenv "STARLINK_DOWNTIME_MINS"));
    [|discriminate].
  intros [= <-]. simpl. now repeat split.
Qed.

(** X25. At start-up [main] returns status 2 exactly when the
    configuration cannot be loaded (DATABASE_URL unset or empty, or a
    STARLINK_* value that is not a float) and status 3 exactly when the
    configuration loads but no serial port is found; it returns no
    other status.  When it goes on, the database URL is not empty, the
    serial path is the one [find_serial_port] finds for SERIAL_PORT,
    the relay password fits 16 bits, and the relay switcher is not
    started if DSD_DEVICE_MAC is unset. *)
Theorem startup_exit_status :
  (forall status, startup_of_env = Exit status -> status = 2 \/ status = 3) /\
  (startup_of_env = Exit 2 <->
   getenv "DATABASE_URL" = None \/ getenv "DATABASE_URL" = Some [] \/
   py_float (getenv_or_zero getenv "STARLINK_UPTIME_MINS") = None \/
   py_float (getenv_or_zero getenv "STARLINK_DOWNTIME_MINS") = None) /\
  (startup_of_env = Exit 3 <->
   (exists cfg, config_of_env = Ok cfg) /\
   exists e, find_serial_port path_exists glob (getenv "SERIAL_PORT") = Raise e) /\
  (forall cfg serial_path switcher,
     startup_of_env = Started cfg serial_path switcher ->
     db_url cfg <> [] /\ 0 <= dsd_password cfg <= 0xFFFF /\
     find_serial_port path_exists glob (getenv "SERIAL_PORT") = Ok serial_path /\
     (getenv "DSD_DEVICE_MAC" = None -> switcher = None)).
Proof.
  pose proof load_config_raises_iff as Hraise.
  unfold main_startup.
  destruct config_of_env as [cfg|e] eqn:Hcfg.
  - pose proof (load_config_ok cfg Hcfg) as (_ & Hurl & Hport & Hmac & _ & _ & Hpwd).
    rewrite Hport.
    destruct (find_serial_port path_exists glob (getenv "SERIAL_PORT"))
      as [path|e] eqn:Hfind.
    + split; [discriminate|]. split.
      { split; [discriminate|]. intros H. apply Hraise in H as [e [=]]. }
      split.
      { split; [discriminate|]. intros [_ [e [=]]]. }
      intros cfg' path' sw [= <- <- <-].
      split; [exact Hurl|]. split; [rewrite Hpwd; apply _parse_pwd_range|].
      split; [reflexivity|].
      intros Hnone. rewrite Hmac, Hnone.
      rewrite start_bt_switcher_disabled; [reflexivity|]. now right; right.
    + split; [intros status [= <-]; now right|]. split.
      { split; [discriminate|]. intros H. apply Hraise in H as [e' [=]]. }
      split; [|discriminate].
      split; [eauto|reflexivity].
  - split; [intros status [= <-]; now left|]. split.
    { split; [intros _; apply Hraise; eauto|reflexivity]. }
    split; [|discriminate].
    split; [discriminate|]. intros [[cfg [=]] _].
Qed.

End WithEnvironment.

End StartupFacts.
(* ================================================================== *)
(** * Properties of the relay switch loop *)
(* ================================================================== *)

Section SwitchLoopFacts.
Import Frame Float Switcher SwitchLoop.

Variables uptime_m downtime_m : spec_float.
Variable mac : list N.
Variable password : Z.

Abbreviation step' := (step uptime_m downtime_m mac password).
Abbreviation run' := (run uptime_m downtime_m mac password).
Abbreviation up := (uptime_s uptime_m).
Abbreviation down := (downtime_s downtime_m).
Abbreviation fon' := (fon password).
Abbreviation foff' := (foff password).
Abbreviation sound := (trace_sound fon' foff' up down).
Abbreviation suffix := (phase_suffix fon' up).

Lemma on_frame_eq : _on_now password 0x01 = Some fon'.
Proof.
  unfold _on_now. rewrite byte_seq_ok by (repeat constructor; lia).
  apply _frame_eq; [lia|repeat constructor; lia].
Qed.

Lemma off_frame_eq : _off_now password 0x01 = Some foff'.
Proof.
  unfold _off_now. rewrite byte_seq_ok by (repeat constructor; lia).
  apply _frame_eq; [lia|repeat constructor; lia].
Qed.

Lemma fon_neq_foff : fon' <> foff'.
Proof. unfold fon, foff, header_of. simpl. intros [= H]. Qed.

Lemma run_add w a b t st :
  run' w (a + b) t st =
  let '(st1, tr1) := run' w a t st in
  let '(st2, tr2) := run' w b (t + a) st1 in
  (st2, tr1 ++ tr2).
Proof.
  revert t st. induction a as [|a IH]; intros t st.
  - simpl. rewrite Nat.add_0_r. now destruct (run' w b t st).
  - simpl. destruct (step' w t st) as [st' acts].
    rewrite IH. destruct (run' w a (S t) st') as [st1 tr1].
    replace (t + S a)%nat with (S t + a)%nat by lia.
    destruct (run' w b (S t + a) st1) as [st2 tr2].
    now rewrite app_assoc.
Qed.

(** ** What is written, and in which order *)

Lemma snoc_split {B} (tr pre post : list B) a x :
  tr ++ [a] = pre ++ x :: post ->
  (post = [] /\ a = x /\ tr = pre) \/
  (exists post', post = post' ++ [a] /\ tr = pre ++ x :: post').
Proof.
  intros H. destruct (exists_last_or_nil post) as [->|(post' & b & ->)].
  - left. apply app_inj_tail in H as [-> ->]. auto.
  - right. exists post'.
    rewrite app_comm_cons, app_assoc in H.
    apply app_inj_tail in H as [-> ->]. auto.
Qed.

Lemma sound_nil : sound [].
Proof.
  split; [|split].
  - intros f Hf. now apply elem_of_nil in Hf.
  - intros d Hd. now apply elem_of_nil in Hd.
  - intros pre post H. now destruct pre.
Qed.

(** Appending one call keeps a trace sound if the call is an allowed
    one and, when it writes the OFF frame, a full ON phase precedes. *)
Lemma sound_snoc tr a :
  sound tr ->
  (forall f, a = Write f -> f = fon' \/ f = foff') ->
  (forall d, a = Sleep d -> d = f3 \/ d = up \/ d = down) ->
  (a = Write foff' -> exists pre, tr = pre ++ [Write fon'; Sleep up]) ->
  sound (tr ++ [a]).
Proof.
  intros (Hw & Hs & Hoff) Haw Has Haoff. split; [|split].
  - intros f Hf. apply elem_of_app in Hf as [Hf|Hf]; [now apply Hw|].
    apply list_elem_of_singleton in Hf. now apply Haw.
  - intros d Hd. apply elem_of_app in Hd as [Hd|Hd]; [now apply Hs|].
    apply list_elem_of_singleton in Hd. now apply Has.
  - intros pre post H.
    apply snoc_split in H as [(_ & Ha & <-)|(post' & _ & Htr)].
    + now apply Haoff.
    + now apply (Hoff pre post').
Qed.

Lemma step_sound w t st tr :
  sound tr -> suffix st tr ->
  sound (tr ++ snd (step' w t st)) /\
  suffix (fst (step' w t st)) (tr ++ snd (step' w t st)).
Proof.
  intros Hs Hsuf.
  pose proof fon_neq_foff as Hne.
  destruct st; simpl;
    rewrite ?on_frame_eq, ?off_frame_eq;
    repeat match goal with
           | |- context [is_set w t] => destruct (is_set w t)
           | |- context [find_device w t] => destruct (find_device w t)
           | |- context [connect w t] => destruct (connect w t)
           | |- context [write_gatt_char w t] => destruct (write_gatt_char w t)
           | |- context [sleep w t] => destruct (sleep w t)
           | |- context [disconnect w t] => destruct (disconnect w t)
           | h : leaving |- _ => destruct h
           end; simpl;
    rewrite ?app_nil_r;
    (split;
     [ first [ exact Hs
             | apply sound_snoc;
               [ exact Hs
               | intros ? [=]; subst; auto
               | intros ? [=]; subst; auto
               | intros [=]; subst; first [now contradict Hne | exact Hsuf] ] ]
     | first [ exact I | exact Hsuf | now eexists
             | destruct Hsuf as [pre ->]; exists pre;
               now rewrite <- app_assoc ] ]).
Qed.

Lemma run_sound w n t st tr :
  sound tr -> suffix st tr ->
  sound (tr ++ snd (run' w n t st)) /\
  suffix (fst (run' w n t st)) (tr ++ snd (run' w n t st)).
Proof.
  revert t st tr. induction n as [|n IH]; intros t st tr Hs Hsuf.
  - simpl. now rewrite app_nil_r.
  - simpl. destruct (step_sound w t st tr Hs Hsuf) as [Hs' Hsuf'].
    destruct (step' w t st) as [st' acts]. simpl in Hs', Hsuf'.
    specialize (IH (S t) st' _ Hs' Hsuf').
    destruct (run' w n (S t) st') as [st'' acts']. simpl in *.
    now rewrite app_assoc.
Qed.

Abbreviation loop := (_bt_switch_loop uptime_m downtime_m mac password).

Lemma run_finished w k t : run' w k t Finished = (Finished, []).
Proof.
  revert t. induction k as [|k IH]; intros t; [reflexivity|].
  simpl. now rewrite IH.
Qed.

(** X26. Whatever the surroundings do, the loop writes nothing but the
    ON frame and the OFF frame of its password (two different frames),
    sleeps nothing but three seconds or one of the two phase lengths,
    and does nothing at all when bleak is missing or the address is
    empty. *)
Theorem switch_loop_calls (bleak_available : bool) (w : world) (n : nat) :
  _on_now password 0x01 = Some fon' /\
  _off_now password 0x01 = Some foff' /\
  fon' <> foff' /\
  (forall f, Write f ∈ snd (loop bleak_available w n) ->
     f = fon' \/ f = foff') /\
  (forall d, Sleep d ∈ snd (loop bleak_available w n) ->
     d = f3 \/ d = up \/ d = down) /\
  (bleak_available = false \/ mac = [] ->
   loop bleak_available w n = (Finished, [])).
Proof.
  split; [apply on_frame_eq|]. split; [apply off_frame_eq|].
  split; [apply fon_neq_foff|].
  destruct (run_sound w n 0 (start mac bleak_available) [] sound_nil)
    as [(Hw & Hs & _) _].
  { unfold start. now destruct (_ && _). }
  split; [exact Hw|]. split; [exact Hs|].
  intros Hoff. unfold _bt_switch_loop.
  assert (Hst : start mac bleak_available = Finished).
  { unfold start. destruct Hoff as [-> | ->]; [reflexivity|].
    rewrite bool_decide_eq_false_2 by auto. now rewrite andb_false_r. }
  rewrite Hst. apply run_finished.
Qed.

(** X27. The relay is switched off only at the end of a full ON phase:
    in every trace of the loop, a write of the OFF frame comes directly
    after a write of the ON frame followed by the ON sleep. *)
Theorem switch_loop_off_after_full_on
    (bleak_available : bool) (w : world) (n : nat) :
  off_after_full_on fon' foff' up (snd (loop bleak_available w n)).
Proof.
  destruct (run_sound w n 0 (start mac bleak_available) [] sound_nil)
    as [(_ & _ & Hoff) _].
  { unfold start. now destruct (_ && _). }
  exact Hoff.
Qed.

(** ** Cancellation *)

Lemma step_when_set w t st :
  is_set w t = true ->
  no_write (snd (step' w t st)) /\
  (distance (fst (step' w t st)) <= distance st - 1)%nat.
Proof.
  intros Hset. unfold no_write.
  destruct st; simpl; rewrite ?Hset;
    repeat match goal with
           | |- context [find_device w t] => destruct (find_device w t)
           | |- context [connect w t] => destruct (connect w t)
           | |- context [write_gatt_char w t] => destruct (write_gatt_char w t)
           | |- context [sleep w t] => destruct (sleep w t)
           | |- context [disconnect w t] => destruct (disconnect w t)
           | h : leaving |- _ => destruct h
           end; simpl;
    (split; [intros f; rewrite ?elem_of_cons, elem_of_nil;
             intros H; repeat destruct H as [H|H]; easy
            |lia]).
Qed.

Lemma run_when_set w k t st :
  (forall t', (t <= t')%nat -> is_set w t' = true) ->
  no_write (snd (run' w k t st)) /\
  (distance (fst (run' w k t st)) <= distance st - k)%nat.
Proof.
  revert t st. induction k as [|k IH]; intros t st Hset.
  - simpl. split; [intros f; apply not_elem_of_nil|lia].
  - simpl. destruct (step_when_set w t st (Hset t (Nat.le_refl t))) as [Hn Hd].
    destruct (step' w t st) as [st' acts]. simpl in Hn, Hd.
    destruct (IH (S t) st') as [Hn' Hd'].
    { intros t' Ht'. apply Hset. lia. }
    destruct (run' w k (S t) st') as [st'' acts']. simpl in *.
    split; [|lia]. intros f Hf. apply elem_of_app in Hf as [Hf|Hf].
    + now apply (Hn f).
    + now apply (Hn' f).
Qed.

Lemma distance_le_6 st : (distance st <= 6)%nat.
Proof. destruct st; simpl; lia. Qed.

Lemma distance_0 st : distance st = 0%nat -> ended st.
Proof. destruct st; simpl; try discriminate; unfold ended; auto. Qed.

(** X28. Once the stop flag is raised and stays raised, the loop makes
    no further write (in particular no OFF write after a stop during
    the ON phase) and comes to its end within six more interactions. *)
Theorem switch_loop_stops (bleak_available : bool) (w : world) (t0 n : nat)
    (Hset : forall t, (t0 <= t)%nat -> is_set w t = true) :
  exists rest,
    snd (loop bleak_available w (t0 + n))
      = snd (loop bleak_available w t0) ++ rest /\
    no_write rest /\
    ((6 <= n)%nat -> ended (fst (loop bleak_available w (t0 + n)))).
Proof.
  unfold _bt_switch_loop. rewrite run_add.
  destruct (run' w t0 0 (start mac bleak_available)) as [st0 tr0].
  simpl (0 + t0)%nat.
  destruct (run_when_set w n t0 st0 Hset) as [Hn Hd].
  destruct (run' w n t0 st0) as [st rest]. simpl in *.
  exists rest. split; [reflexivity|]. split; [exact Hn|].
  intros H6. apply distance_0. pose proof (distance_le_6 st0). lia.
Qed.

End SwitchLoopFacts.

Lemma switch_loop_stops_witness :
  exists rest,
    snd (SwitchLoop._bt_switch_loop Float.f1 Float.f1 (PyStr.py "AA:BB") 0x04D2
           true (SwitchLoop.calm_world 3) (3 + 6))
      = snd (SwitchLoop._bt_switch_loop Float.f1 Float.f1 (PyStr.py "AA:BB")
               0x04D2 true (SwitchLoop.calm_world 3) 3) ++ rest /\
    SwitchLoop.no_write rest /\
    ((6 <= 6)%nat ->
     SwitchLoop.ended
       (fst (SwitchLoop._bt_switch_loop Float.f1 Float.f1 (PyStr.py "AA:BB")
               0x04D2 true (SwitchLoop.calm_world 3) (3 + 6)))).
Proof.
  apply (switch_loop_stops Float.f1 Float.f1 (PyStr.py "AA:BB") 0x04D2 true
           (SwitchLoop.calm_world 3) 3 6).
  intros t Ht. simpl. now apply bool_decide_eq_true_2.
Defined.
